(** * prompt_diff_report.providers: provider abstraction and resilience

    A shallow embedding of
      - [providers/exceptions.py]  (the error taxonomy),
      - [providers/data_class.py]  (messages and generation parameters),
      - [providers/retry_utils.py] (the two retry decorators, over a model of
        the [tenacity] retry loop they configure),
      - [providers/base.py]        (client contract, registry and resolver),
      - [scripts/export_tree_markdown.py] (the directory tree and the file
        sections, over a description of what is on disk),
    followed by the properties of the specification that concern them and
    by further properties of the same code.

    Python [str] is modelled by [string], Python [int] by [Z], Python [float]
    by the IEEE-754 binary64 values of [spec_float].  Raising an exception is
    an explicit result ([Raise]); the mutable module state ([_REGISTRY]) and
    the effects a caller can observe (sleeping, calling a wrapped operation,
    touching the registry) are threaded through a [world]. *)

From Stdlib Require Import ZArith List String Ascii Bool Lia PeanoNat.
From Stdlib Require Import QArith Qpower Permutation Sorted.
From Stdlib Require Import Floats.SpecFloat.
Import ListNotations.
Close Scope Q_scope.
Open Scope string_scope.
Open Scope Z_scope.

Set Implicit Arguments.

(* ===================================================================== *)
(** ** Python strings: the two [str] operations the resolver uses         *)
(* ===================================================================== *)

(** [c in s] for a one-character needle. *)
Fixpoint str_contains (c : ascii) (s : string) : bool :=
  match s with
  | EmptyString => false
  | String a s' => if Ascii.eqb a c then true else str_contains c s'
  end.

(** [s.split(sep, maxsplit)] for a one-character separator and a
    non-negative [maxsplit]: at most [maxsplit] cuts, scanning from the
    left; the remainder is the last element. *)
Fixpoint str_split (sep : ascii) (maxsplit : nat) (s : string) : list string :=
  match maxsplit with
  | O => [s]
  | S k =>
      match s with
      | EmptyString => [EmptyString]
      | String a s' =>
          if Ascii.eqb a sep then EmptyString :: str_split sep k s'
          else
            match str_split sep maxsplit s' with
            | [] => [String a EmptyString]
            | piece :: rest => String a piece :: rest
            end
      end
  end.

(** [sep.join(items)]. *)
Fixpoint str_join (sep : string) (items : list string) : string :=
  match items with
  | [] => EmptyString
  | [x] => x
  | x :: rest => x ++ sep ++ str_join sep rest
  end.

(** [needle in haystack] for strings, as a proposition. *)
Definition substring_of (needle haystack : string) : Prop :=
  exists before after, haystack = before ++ needle ++ after.

(** [repr] of a list of strings, given [repr] on one string:
    ["[" + ", ".join(map(repr, l)) + "]"]. *)
Definition repr_list (repr_str : string -> string) (l : list string) : string :=
  "[" ++ str_join ", " (map repr_str l) ++ "]".

(** [repr] of a [str] made of printable ASCII characters other than the
    single quote and the backslash: the text between single quotes.  (Used
    for the concrete examples; the lemmas below hold for any [repr].) *)
Definition plain_repr (s : string) : string := "'" ++ s ++ "'".

(* ===================================================================== *)
(** ** exceptions.py: the error taxonomy                                  *)
(* ===================================================================== *)

(** Exception classes: the builtins this code raises or derives from, the
    three classes of [exceptions.py], the two [tenacity] classes the retry
    loop knows, and further single-inheritance specialisations
    ([class name(base)]) that provider implementations may add. *)
Inductive exc_class : Type :=
| BaseException
| Exception
| RuntimeError
| ValueError
| LookupError
| KeyError
| ProviderError            (* class ProviderError(RuntimeError) *)
| ProviderRateLimitError   (* class ProviderRateLimitError(ProviderError) *)
| ProviderAuthError        (* class ProviderAuthError(ProviderError) *)
| TryAgain                 (* tenacity.TryAgain(Exception) *)
| RetryError               (* tenacity.RetryError(Exception) *)
| ValidationError          (* pydantic.ValidationError(ValueError) *)
| Subclass (name : string) (base : exc_class).

Definition exc_class_eq_dec (c d : exc_class) : {c = d} + {c <> d}.
Proof. decide equality. apply string_dec. Defined.

Definition exc_class_eqb (c d : exc_class) : bool :=
  if exc_class_eq_dec c d then true else false.

(** The method resolution order of a class: itself, then its ancestors. *)
Fixpoint mro (c : exc_class) : list exc_class :=
  match c with
  | BaseException => [BaseException]
  | Exception => [Exception; BaseException]
  | RuntimeError => [RuntimeError; Exception; BaseException]
  | ValueError => [ValueError; Exception; BaseException]
  | LookupError => [LookupError; Exception; BaseException]
  | KeyError => [KeyError; LookupError; Exception; BaseException]
  | ProviderError => [ProviderError; RuntimeError; Exception; BaseException]
  | ProviderRateLimitError =>
      [ProviderRateLimitError; ProviderError; RuntimeError; Exception;
       BaseException]
  | ProviderAuthError =>
      [ProviderAuthError; ProviderError; RuntimeError; Exception;
       BaseException]
  | TryAgain => [TryAgain; Exception; BaseException]
  | RetryError => [RetryError; Exception; BaseException]
  | ValidationError =>
      [ValidationError; ValueError; Exception; BaseException]
  | Subclass _ base => c :: mro base
  end.

Definition issubclass (c d : exc_class) : bool :=
  existsb (exc_class_eqb d) (mro c).

(** An exception value: its class and its message ([args[0]]; for a
    [KeyError] the missing key), raised plainly or [from] a cause. *)
Inductive exception : Type :=
| Exc (cls : exc_class) (msg : string)
| ExcFrom (cls : exc_class) (msg : string) (cause : exception).

Definition exc_type (e : exception) : exc_class :=
  match e with Exc c _ | ExcFrom c _ _ => c end.
Definition exc_msg (e : exception) : string :=
  match e with Exc _ m | ExcFrom _ m _ => m end.
Definition exc_cause (e : exception) : option exception :=
  match e with Exc _ _ => None | ExcFrom _ _ c => Some c end.

Definition isinstance (e : exception) (c : exc_class) : bool :=
  issubclass (exc_type e) c.

(** The result of running a piece of Python: a value or a raised
    exception. *)
Inductive outcome (A : Type) : Type :=
| Return (a : A)
| Raise (e : exception).
Arguments Return {A} a.
Arguments Raise {A} e.

(* ===================================================================== *)
(** ** data_class.py: messages and generation parameters                  *)
(* ===================================================================== *)

(** Python floats: the IEEE-754 binary64 values. *)
Definition prec : Z := 53.
Definition emax : Z := 1024.

Record float : Type := {
  float_val : spec_float;
  float_valid : valid_binary prec emax float_val = true
}.

Definition float_leb (x y : float) : bool := SFleb (float_val x) (float_val y).
Definition float_ltb (x y : float) : bool := SFltb (float_val x) (float_val y).

Definition float_zero : float :=                                   (* 0.0 *)
  {| float_val := S754_zero false; float_valid := eq_refl |}.
Definition float_one : float :=                                    (* 1.0 *)
  {| float_val := S754_finite false 4503599627370496 (-52);
     float_valid := eq_refl |}.
Definition float_two : float :=                                    (* 2.0 *)
  {| float_val := S754_finite false 4503599627370496 (-51);
     float_valid := eq_refl |}.
Definition float_0_7 : float :=                                    (* 0.7 *)
  {| float_val := S754_finite false 6305039478318694 (-53);
     float_valid := eq_refl |}.

(** [Literal['system', 'user', 'assistant']] *)
Inductive Role : Type := system | user | assistant.

Record Message : Type := { role : Role; content : string }.

Record Messages : Type := { messages : list Message }.

(** The numeric constraints a pydantic [Field] can carry:
    [ge] (value >= bound), [gt] (value > bound), [le] (value <= bound),
    [lt] (value < bound); an absent constraint always passes. *)
Record FieldInfo (N : Type) : Type := {
  ge : option N;
  gt : option N;
  le : option N;
  lt : option N
}.

Section Constraints.
Variable N : Type.
Variable leb ltb : N -> N -> bool.

(** A value passes the field when every declared constraint holds. *)
Definition field_ok (f : FieldInfo N) (x : N) : bool :=
  match ge f with Some b => leb b x | None => true end &&
  match gt f with Some b => ltb b x | None => true end &&
  match le f with Some b => leb x b | None => true end &&
  match lt f with Some b => ltb x b | None => true end.

(** A field annotated [T | None]: [None] is accepted as it is, a number
    is checked against the constraints. *)
Definition optional_field_ok (f : FieldInfo N) (x : option N) : bool :=
  match x with
  | None => true
  | Some v => field_ok f v
  end.
End Constraints.

(** Values of provider-specific options (the scalars of Python). *)
Inductive py_value : Type :=
| PyNone
| PyBool (b : bool)
| PyInt (z : Z)
| PyFloat (x : float)
| PyStr (s : string).

(** [class GenerateParameters(BaseModel)]: the three recognised options and,
    because of [model_config = {'extra': 'allow'}], the extra fields. *)
Record GenerateParameters : Type := {
  temperature : option float;
  top_p : option float;
  max_tokens : option Z;
  model_extra : list (string * py_value)
}.

(** [Field(default=0.7, ge=0.0, le=2.0)] *)
Definition temperature_field : FieldInfo float :=
  {| ge := Some float_zero; gt := None; le := Some float_two; lt := None |}.
Definition temperature_default : option float := Some float_0_7.

(** [Field(default=1.0, ge=0.0, le=1.0)] *)
Definition top_p_field : FieldInfo float :=
  {| ge := Some float_zero; gt := None; le := Some float_one; lt := None |}.
Definition top_p_default : option float := Some float_one.

(** [Field(default=None, gt=256, le=16384)] *)
Definition max_tokens_field : FieldInfo Z :=
  {| ge := None; gt := Some 256; le := Some 16384; lt := None |}.
Definition max_tokens_default : option Z := None.

(** The keyword arguments of [GenerateParameters(...)]: each recognised
    option is omitted ([None]), or supplied as [None] or as a number of
    the field's type; every other keyword is an extra. *)
Record GenerateParameters_kwargs : Type := {
  kw_temperature : option (option float);
  kw_top_p : option (option float);
  kw_max_tokens : option (option Z);
  kw_extra : list (string * py_value)
}.

Definition float_ok : FieldInfo float -> option float -> bool :=
  optional_field_ok float_leb float_ltb.
Definition int_ok : FieldInfo Z -> option Z -> bool :=
  optional_field_ok Z.leb Z.ltb.

(** A supplied value is validated, an omitted one takes the default (which
    pydantic does not validate). *)
Definition validate_field (A : Type) (ok : option A -> bool)
  (default : option A) (supplied : option (option A)) : option (option A) :=
  match supplied with
  | None => Some default
  | Some v => if ok v then Some v else None
  end.

(** The names of the fields whose supplied value is refused. *)
Definition invalid_fields (kw : GenerateParameters_kwargs) : list string :=
  (match validate_field (float_ok temperature_field) temperature_default
           (kw_temperature kw) with
   | None => ["temperature"] | Some _ => [] end) ++
  (match validate_field (float_ok top_p_field) top_p_default
           (kw_top_p kw) with
   | None => ["top_p"] | Some _ => [] end) ++
  (match validate_field (int_ok max_tokens_field) max_tokens_default
           (kw_max_tokens kw) with
   | None => ["max_tokens"] | Some _ => [] end).

(** [GenerateParameters] called with the keywords [kw]: a record when
    every supplied option passes its field, a [ValidationError] otherwise
    (its message is abbreviated to the names of the refused fields). *)
Definition GenerateParameters_init (kw : GenerateParameters_kwargs)
  : outcome GenerateParameters :=
  match validate_field (float_ok temperature_field) temperature_default
          (kw_temperature kw),
        validate_field (float_ok top_p_field) top_p_default (kw_top_p kw),
        validate_field (int_ok max_tokens_field) max_tokens_default
          (kw_max_tokens kw) with
  | Some t, Some p, Some m =>
      Return {| temperature := t; top_p := p; max_tokens := m;
                model_extra := kw_extra kw |}
  | _, _, _ =>
      Raise (Exc ValidationError (str_join ", " (invalid_fields kw)))
  end.

(* ===================================================================== *)
(** ** The world: module state and observable effects                     *)
(* ===================================================================== *)

(** What a caller (or a test double) can observe of a run. *)
Inductive event : Type :=
| EvSleep (seconds : Z)                       (* time.sleep(seconds) *)
| EvCall                                      (* a spied operation ran *)
| EvGenerate (model : string) (msgs : Messages) (params : GenerateParameters)
| EvInstantiate (cls_name model : string)     (* cls(model=...) *)
| EvRegistryContains (key : string)           (* key in _REGISTRY *)
| EvRegistryGetItem (key : string)            (* _REGISTRY[key] *)
| EvRegistrySetItem (key cls_name : string)   (* _REGISTRY[key] = cls *)
| EvRegistryKeys.                             (* list(_REGISTRY) *)

(** A Python [dict] with [str] keys: the items in insertion order. *)
Definition dict (V : Type) : Type := list (string * V).

Fixpoint dict_get (V : Type) (d : dict V) (k : string) : option V :=
  match d with
  | [] => None
  | (k', v) :: d' => if String.eqb k' k then Some v else dict_get d' k
  end.

Definition dict_contains (V : Type) (d : dict V) (k : string) : bool :=
  match dict_get d k with Some _ => true | None => false end.

(** [d[k] = v]: the value of an existing key is replaced where it stands,
    a new key goes to the end. *)
Fixpoint dict_set (V : Type) (d : dict V) (k : string) (v : V) : dict V :=
  match d with
  | [] => [(k, v)]
  | (k', v') :: d' =>
      if String.eqb k' k then (k', v) :: d' else (k', v') :: dict_set d' k v
  end.

Definition dict_keys (V : Type) (d : dict V) : list string := map fst d.

(** Computations over a state [W]: they read and change the state and
    return or raise. *)
Definition M (W A : Type) : Type := W -> outcome A * W.

Definition ret {W A : Type} (a : A) : M W A := fun w => (Return a, w).

Definition raise {W A : Type} (e : exception) : M W A :=
  fun w => (Raise e, w).

Definition bind {W A B : Type} (c : M W A) (k : A -> M W B) : M W B :=
  fun w =>
    match c w with
    | (Return a, w') => k a w'
    | (Raise e, w') => (Raise e, w')
    end.

(** [try: body except c as exc: handler exc] *)
Definition try_except {W A : Type} (body : M W A) (c : exc_class)
  (handler : exception -> M W A) : M W A :=
  fun w =>
    match body w with
    | (Return a, w') => (Return a, w')
    | (Raise e, w') => if isinstance e c then handler e w' else (Raise e, w')
    end.

Declare Scope py_scope.
Delimit Scope py_scope with py.
Notation "x <- c ;; k" := (bind c (fun x => k))
  (at level 100, c at next level, right associativity) : py_scope.
Notation "c ;;; k" := (bind c (fun _ => k))
  (at level 100, right associativity) : py_scope.
Open Scope py_scope.

Section Providers.

(** The state of everything outside this package that an operation may
    read or change (the vendors' services, the network, test doubles). *)
Variable St : Type.
(** The SDK client objects ([OpenAI | Anthropic | VertexAI]). *)
Variable Conn : Type.

(** A concrete subclass of [AbstractLLMClient], as a class object: its
    name, its [provider] class attribute ([None] when it has none) and
    its implementations of the two abstract methods; [self] is passed as
    the attributes set so far. *)
Record client_type : Type := {
  __name__ : string;
  provider : option string;
  _create_client : string -> St -> outcome Conn * St;
  generate : string -> Conn -> Messages -> GenerateParameters ->
             St -> outcome string * St
}.

(** An instance: its class and the two attributes [__init__] sets. *)
Record AbstractLLMClient : Type := {
  cls_of : client_type;
  model : string;
  client : Conn
}.

Record world : Type := {
  _REGISTRY : dict client_type;
  vendor : St;
  trace : list event
}.

Definition Py (A : Type) : Type := M world A.

Definition log (ev : event) (w : world) : world :=
  {| _REGISTRY := _REGISTRY w; vendor := vendor w;
     trace := trace w ++ [ev] |}.

Definition tell (ev : event) : Py unit := fun w => (Return tt, log ev w).

(** Running a function of the outside state inside the world. *)
Definition lift {A : Type} (f : St -> outcome A * St) : Py A :=
  fun w =>
    let (r, s') := f (vendor w) in
    (r, {| _REGISTRY := _REGISTRY w; vendor := s'; trace := trace w |}).

(** A test spy around an operation: every invocation is recorded. *)
Definition spy {A : Type} (op : St -> outcome A * St) : Py A :=
  tell EvCall ;;; lift op.

(** [time.sleep(seconds)] *)
Definition time_sleep (seconds : Z) : Py unit :=
  if seconds <? 0
  then raise (Exc ValueError "sleep length must be non-negative")
  else tell (EvSleep seconds).

(* =================================================================== *)
(** *** tenacity: the retry loop that retry_utils.py configures         *)
(* =================================================================== *)

Section Tenacity.
Variable A : Type.

(** [RetryCallState]: the number of the current attempt (from 1), the
    outcome of the attempt once it has run, the time slept so far. *)
Record RetryCallState : Type := {
  attempt_number : Z;
  outcome_of : option (outcome A);
  idle_for : Z
}.

(** The keyword arguments of [tenacity.retry(...)] that this code
    sets; [sleep] keeps its default, [time.sleep]. *)
Record Retrying : Type := {
  retry_ : RetryCallState -> bool;
  stop : RetryCallState -> bool;
  wait : RetryCallState -> Z;
  reraise : bool
}.

(** [retry_if_exception_type(c)]: the attempt raised an instance of
    [c]. *)
Definition retry_if_exception_type (c : exc_class) (rs : RetryCallState)
  : bool :=
  match outcome_of rs with
  | Some (Raise e) => isinstance e c
  | _ => false
  end.

(** [retry_if_result(predicate)]: the attempt returned a value on
    which [predicate] is true. *)
Definition retry_if_result (predicate : A -> bool) (rs : RetryCallState)
  : bool :=
  match outcome_of rs with
  | Some (Return v) => predicate v
  | _ => false
  end.

(** [stop_after_attempt(n)] *)
Definition stop_after_attempt (max_attempt_number : Z)
  (rs : RetryCallState) : bool :=
  attempt_number rs >=? max_attempt_number.

(** [wait_fixed(w)] *)
Definition wait_fixed (wait_seconds : Z) (rs : RetryCallState) : Z :=
  wait_seconds.

(** What [Retrying.iter] tells the loop to do next. *)
Inductive action : Type :=
| DoAttempt
| DoSleep (seconds : Z)
| Finish (result : outcome A).   (* return a value or raise *)

(** The message of a [RetryError] (the text of the attempt it wraps is
    not modelled). *)
Definition RetryError_msg : string := "RetryError".

(** [Retrying.iter(retry_state)] *)
Definition iter (r : Retrying) (rs : RetryCallState) : action :=
  match outcome_of rs with
  | None => DoAttempt
  | Some fut =>
      let is_explicit_retry :=
        match fut with Raise e => isinstance e TryAgain | _ => false end in
      if negb (is_explicit_retry || retry_ r rs) then Finish fut
      else if stop r rs then
        match fut with
        | Raise e =>
            if reraise r then Finish (Raise e)
            else Finish (Raise (ExcFrom RetryError RetryError_msg e))
        | Return _ => Finish (Raise (Exc RetryError RetryError_msg))
        end
      else DoSleep (wait r rs)
  end.

Definition set_outcome (rs : RetryCallState) (res : outcome A)
  : RetryCallState :=
  {| attempt_number := attempt_number rs; outcome_of := Some res;
     idle_for := idle_for rs |}.

(** [iter] adds the wait to [idle_for] before it returns [DoSleep];
    [prepare_for_next_attempt] clears the outcome and counts the
    attempt. *)
Definition prepare_for_next_attempt (rs : RetryCallState) (seconds : Z)
  : RetryCallState :=
  {| attempt_number := attempt_number rs + 1; outcome_of := None;
     idle_for := idle_for rs + seconds |}.

Definition begin : RetryCallState :=
  {| attempt_number := 1; outcome_of := None; idle_for := 0 |}.

(** [Retrying.__call__(fn)]: the loop [while True: do = self.iter(...)],
    run for at most [fuel] turns ([None] when they do not suffice).  On
    [DoSleep] the state is prepared for the next attempt and [time.sleep]
    is called; if the sleep raises, the exception leaves the loop. *)
Fixpoint retry_loop (fuel : nat) (r : Retrying) (fn : Py A)
  (rs : RetryCallState) (w : world) : option (outcome A * world) :=
  match fuel with
  | O => None
  | S fuel' =>
      match iter r rs with
      | DoAttempt =>
          let (res, w') := fn w in
          retry_loop fuel' r fn (set_outcome rs res) w'
      | DoSleep seconds =>
          match time_sleep seconds w with
          | (Return _, w') =>
              retry_loop fuel' r fn
                (prepare_for_next_attempt rs seconds) w'
          | (Raise e, w') => Some (Raise e, w')
          end
      | Finish res => Some (res, w)
      end
  end.

(** [tenacity.retry(...)] as a decorator: the decorated function runs
    the loop around the call of the original. *)
Definition retry (Args : Type) (r : Retrying) (fn : Args -> Py A)
  (args : Args) (fuel : nat) (w : world) : option (outcome A * world) :=
  retry_loop fuel r (fn args) begin w.

(* ================================================================= *)
(** *** retry_utils.py                                                *)
(* ================================================================= *)

(** [rate_limit_retry(max_attempts=3, wait_seconds=1)]: the decorator
    that retries when [ProviderRateLimitError] is raised. *)
Definition rate_limit_retry (Args : Type) (max_attempts wait_seconds : Z)
  : (Args -> Py A) -> Args -> nat -> world -> option (outcome A * world) :=
  retry
    {| retry_ := retry_if_exception_type ProviderRateLimitError;
       stop := stop_after_attempt max_attempts;
       wait := wait_fixed wait_seconds;
       reraise := true |}.

(** [llm_retry_decorator(predicate, max_attempts=5, wait_seconds=1)]:
    the decorator that retries while [predicate(result)] is true. *)
Definition llm_retry_decorator (Args : Type) (predicate : A -> bool)
  (max_attempts wait_seconds : Z)
  : (Args -> Py A) -> Args -> nat -> world -> option (outcome A * world) :=
  retry
    {| retry_ := retry_if_result predicate;
       stop := stop_after_attempt max_attempts;
       wait := wait_fixed wait_seconds;
       reraise := true |}.

End Tenacity.

(* =================================================================== *)
(** *** base.py                                                         *)
(* =================================================================== *)

(** [AbstractLLMClient.__init__(self, model)], reached through
    [cls(model=...)]. *)
Definition instantiate (cls : client_type) (model_name : string)
  : Py AbstractLLMClient :=
  tell (EvInstantiate (__name__ cls) model_name) ;;;
  conn <- lift (_create_client cls model_name) ;;
  ret {| cls_of := cls; model := model_name; client := conn |}.

(** The body of [call_with_retry]:
    [return self.generate(messages=messages, params=params)]. *)
Definition call_with_retry_body
  (args : AbstractLLMClient * Messages * GenerateParameters) : Py string :=
  let '(self, msgs, params) := args in
  tell (EvGenerate (model self) msgs params) ;;;
  lift (generate (cls_of self) (model self) (client self) msgs params).

(** [@rate_limit_retry(max_attempts=3, wait_seconds=1)
     def call_with_retry(self, messages, params)] *)
Definition call_with_retry (self : AbstractLLMClient) (msgs : Messages)
  (params : GenerateParameters)
  : nat -> world -> option (outcome string * world) :=
  rate_limit_retry 3 1 call_with_retry_body (self, msgs, params).

(** The operations on the module-level [_REGISTRY]. *)
Definition registry_contains (key : string) : Py bool :=
  fun w => (Return (dict_contains (_REGISTRY w) key),
            log (EvRegistryContains key) w).

Definition registry_getitem (key : string) : Py client_type :=
  fun w =>
    match dict_get (_REGISTRY w) key with
    | Some cls => (Return cls, log (EvRegistryGetItem key) w)
    | None => (Raise (Exc KeyError key), log (EvRegistryGetItem key) w)
    end.

Definition registry_setitem (key : string) (cls : client_type) : Py unit :=
  fun w =>
    (Return tt,
     {| _REGISTRY := dict_set (_REGISTRY w) key cls; vendor := vendor w;
        trace := trace w ++ [EvRegistrySetItem key (__name__ cls)] |}).

Definition registry_keys : Py (list string) :=
  fun w => (Return (dict_keys (_REGISTRY w)), log EvRegistryKeys w).

(** Python truthiness of [getattr(cls, 'provider', None)]. *)
Definition falsy (key : option string) : bool :=
  match key with
  | None => true
  | Some k => String.eqb k EmptyString
  end.

Definition missing_provider_msg : string :=
  "Provider client must define 'provider' class attr".

Definition already_registered_msg (key cls_name : string) : string :=
  "Provider '" ++ key ++ "' already registered by " ++ cls_name.

Definition register_provider (cls : client_type) : Py client_type :=
  let key := provider cls in         (* getattr(cls, 'provider', None) *)
  if falsy key then raise (Exc ValueError missing_provider_msg)
  else
    let key := match key with Some k => k | None => EmptyString end in
    occupied <- registry_contains key ;;
    if (occupied : bool) then
      holder <- registry_getitem key ;;
      raise (Exc ValueError (already_registered_msg key (__name__ holder)))
    else
      registry_setitem key cls ;;;
      ret cls.

Section Repr.
(** Python's [repr] on [str]. *)
Variable repr_str : string -> string.

Definition format_error_msg : string :=
  "model_uri must be in 'provider:model' format (e.g. 'openai:gpt-4o')".

Definition unknown_provider_msg (provider_key : string)
  (registered : list string) : string :=
  "Unknown provider '" ++ provider_key ++ "'. Registered: " ++
  repr_list repr_str registered.

Definition resolve_client (model_uri : string) : Py AbstractLLMClient :=
  if negb (str_contains ":"%char model_uri) then
    raise (Exc ValueError format_error_msg)
  else
    match str_split ":"%char 1 model_uri with
    | [provider_key; model_name] =>
        cls <- try_except (registry_getitem provider_key) KeyError
                 (fun exc =>
                    keys <- registry_keys ;;
                    raise (ExcFrom ValueError
                             (unknown_provider_msg provider_key keys)
                             exc)) ;;
        instantiate cls model_name
    | [_] =>
        raise (Exc ValueError
                 "not enough values to unpack (expected 2, got 1)")
    | _ =>
        raise (Exc ValueError "too many values to unpack (expected 2)")
    end.
End Repr.

End Providers.

Arguments tell {St Conn} ev.
Arguments lift {St Conn A} f.
Arguments spy {St Conn A} op.
Arguments time_sleep {St Conn} seconds.
Arguments log {St Conn} ev w.
Arguments begin {A}.
Arguments DoAttempt {A}.
Arguments DoSleep {A} seconds.
Arguments Finish {A} result.
Arguments rate_limit_retry {St Conn A Args}
  max_attempts wait_seconds fn args fuel w.
Arguments llm_retry_decorator {St Conn A Args}
  predicate max_attempts wait_seconds fn args fuel w.
Arguments registry_contains {St Conn} key.
Arguments registry_getitem {St Conn} key.
Arguments registry_setitem {St Conn} key cls.
Arguments registry_keys {St Conn}.

(* ===================================================================== *)
(** ** Test doubles                                                       *)
(* ===================================================================== *)

(** The outside state of the doubles is the number of calls made so far;
    their SDK client object is the name of the model. *)

(** Raises [ProviderRateLimitError] on calls 1 and 2, returns on call 3. *)
Definition flaky_op (n : nat) : outcome string * nat :=
  (match n with
   | 0%nat | 1%nat => Raise (Exc ProviderRateLimitError "429")
   | _ => Return "done"
   end, S n).

(** Always raises [ProviderAuthError]. *)
Definition unauthorized_op (n : nat) : outcome string * nat :=
  (Raise (Exc ProviderAuthError "401"), S n).

(** Returns ["retry-me"] on calls 1 and 2, ["ok"] on call 3. *)
Definition retry_me_op (n : nat) : outcome string * nat :=
  (match n with
   | 0%nat | 1%nat => Return "retry-me"
   | _ => Return "ok"
   end, S n).

Definition is_retry_me (value : string) : bool := String.eqb value "retry-me".

Definition FakeOpenAI : client_type nat string :=
  {| __name__ := "FakeOpenAI";
     provider := Some "openai";
     _create_client := fun m s => (Return m, s);
     generate := fun m conn msgs params s => flaky_op s |}.

Definition FakeOther : client_type nat string :=
  {| __name__ := "FakeOther";
     provider := Some "openai";
     _create_client := fun m s => (Return m, s);
     generate := fun m conn msgs params s => unauthorized_op s |}.

(** A client whose connection cannot be built. *)
Definition NoCredentials : client_type nat string :=
  {| __name__ := "NoCredentials";
     provider := Some "anthropic";
     _create_client := fun m s => (Raise (Exc ProviderAuthError "401"), s);
     generate := fun m conn msgs params s => unauthorized_op s |}.

Definition Unnamed : client_type nat string :=
  {| __name__ := "Unnamed";
     provider := None;
     _create_client := fun m s => (Return m, s);
     generate := fun m conn msgs params s => unauthorized_op s |}.

Definition fresh : world nat string :=
  {| _REGISTRY := []; vendor := 0%nat; trace := [] |}.

Definition with_openai : world nat string :=
  {| _REGISTRY := [("openai", FakeOpenAI)]; vendor := 0%nat; trace := [] |}.

Definition hello : Messages :=
  {| messages := [ {| role := user; content := "Hello" |} ] |}.

Definition defaults : GenerateParameters :=
  {| temperature := temperature_default; top_p := top_p_default;
     max_tokens := max_tokens_default; model_extra := [] |}.

(* ===================================================================== *)
(** ** Vocabulary of the properties                                       *)
(* ===================================================================== *)

(** The number of recorded invocations of a spied operation. *)
Fixpoint calls (t : list event) : nat :=
  match t with
  | [] => 0%nat
  | EvCall :: t' => S (calls t')
  | _ :: t' => calls t'
  end.

(** What attempts look like from outside: the event [ev] of each attempt,
    with a sleep of [wait_seconds] before every attempt but the first. *)
Fixpoint retries_trace (ev : event) (wait_seconds : Z) (k : nat)
  : list event :=
  match k with
  | O => []
  | S k' =>
      EvSleep wait_seconds :: ev :: retries_trace ev wait_seconds k'
  end.

Definition attempts_trace (ev : event) (wait_seconds : Z) (n : nat)
  : list event :=
  match n with
  | O => []
  | S k => ev :: retries_trace ev wait_seconds k
  end.

(** The error-kind strategy retries an attempt that raised the selected
    kind (or [tenacity.TryAgain], the library's explicit request to
    retry). *)
Definition error_kind_wanted (A : Type) (c : exc_class) (res : outcome A)
  : bool :=
  match res with
  | Raise e => isinstance e TryAgain || isinstance e c
  | Return _ => false
  end.

(** The predicate strategy retries an attempt that returned a value on
    which the predicate is true (or raised [tenacity.TryAgain]). *)
Definition predicate_wanted (A : Type) (predicate : A -> bool)
  (res : outcome A) : bool :=
  match res with
  | Raise e => isinstance e TryAgain
  | Return v => predicate v
  end.

(** What the caller gets when the last allowed attempt still asks for a
    retry: the failure of that attempt, as it is; [RetryError] when the
    attempt returned. *)
Definition exhausted (A : Type) (res : outcome A) : outcome A :=
  match res with
  | Raise e => Raise e
  | Return _ => Raise (Exc RetryError RetryError_msg)
  end.

(** The exact value of a float, when it is a number. *)
Definition float_value (x : float) : option Q :=
  match float_val x with
  | S754_zero _ => Some 0%Q
  | S754_finite s m e =>
      Some (inject_Z (cond_Zopp s (Zpos m)) * 2 ^ e)%Q
  | S754_infinity _ | S754_nan => None
  end.

(** [x] is a number of the closed interval from [lo] to [hi]. *)
Definition in_closed_interval (lo hi : Q) (x : float) : Prop :=
  exists q, float_value x = Some q /\ (lo <= q <= hi)%Q.

Section Vocabulary.
Variables St Conn : Type.

(** The retry strategies in the words of the specification: run the
    operation; while its outcome asks for a retry and retries remain,
    run it again; otherwise its outcome is the result.  Returns the
    result, the outside state and the number of runs. *)
Fixpoint attempts_spec (A : Type) (wanted : outcome A -> bool)
  (op : St -> outcome A * St) (retries : nat) (s : St)
  : outcome A * St * nat :=
  let (r, s') := op s in
  if wanted r then
    match retries with
    | S k =>
        let '(r2, s2, n) := attempts_spec wanted op k s' in
        (r2, s2, S n)
    | O => (exhausted r, s', 1%nat)
    end
  else (r, s', 1%nat).

(** The worlds a process can be in: the registry is empty at startup and
    changes through [register_provider] only. *)
Inductive reachable : world St Conn -> Prop :=
| reach_startup : forall w, _REGISTRY w = [] -> reachable w
| reach_register : forall w cls,
    reachable w -> reachable (snd (register_provider cls w))
| reach_resolve : forall repr_str w model_uri,
    reachable w -> reachable (snd (resolve_client repr_str model_uri w))
| reach_elsewhere : forall w s t,
    reachable w ->
    reachable {| _REGISTRY := _REGISTRY w; vendor := s; trace := t |}.

End Vocabulary.

(** The number of attempts [stop_after_attempt(max_attempts)] allows: the
    first attempt always runs. *)
Definition budget (max_attempts : Z) : nat := Z.to_nat (Z.max 1 max_attempts).

Section Registrations.
Variables St Conn : Type.

(** A run of registrations, as at import time when each provider module
    registers its class: the calls in order, a failed call leaving the
    world to the next one. *)
Definition register_all (classes : list (client_type St Conn))
  (w : world St Conn) : world St Conn :=
  fold_left (fun w cls => snd (register_provider cls w)) classes w.

(** The first class of a list that names [key] as its provider. *)
Definition first_with_key (key : string)
  (classes : list (client_type St Conn)) : option (client_type St Conn) :=
  find (fun cls => match provider cls with
                   | Some k => String.eqb k key
                   | None => false
                   end) classes.

End Registrations.

(** The fields of a record as keyword arguments, every option supplied
    ([GenerateParameters] called again with what [model_dump()] gives). *)
Definition kwargs_of (p : GenerateParameters) : GenerateParameters_kwargs :=
  {| kw_temperature := Some (temperature p);
     kw_top_p := Some (top_p p);
     kw_max_tokens := Some (max_tokens p);
     kw_extra := model_extra p |}.

(* ===================================================================== *)
(** ** scripts/export_tree_markdown.py: the tree and the file sections    *)
(* ===================================================================== *)

(** ['\n'] *)
Definition newline : string := String "010"%char EmptyString.



Definition IGNORE_DIRS : list string := ["__pycache__"].


(** [x in s] for a set of strings. *)
Definition str_in (x : string) (s : list string) : bool :=
  existsb (String.eqb x) s.



(** What is on disk under a directory: files, directories with what
    [iterdir()] yields (in the order the system gives it), and entries
    that are neither (a broken link, a socket). *)
Unset Elimination Schemes.
Inductive entry : Type :=
| File (name : string)
| Dir (name : string) (children : list entry)
| Other (name : string).
Set Elimination Schemes.

Definition entry_name (e : entry) : string :=
  match e with File n | Dir n _ | Other n => n end.

Definition is_file (e : entry) : bool :=
  match e with File _ => true | _ => false end.

Definition is_dir (e : entry) : bool :=
  match e with Dir _ _ => true | _ => false end.

(** Tuples [(bool, str)] as Python compares them: [False] before [True],
    then the strings by their characters. *)
Definition key_ltb (k1 k2 : bool * string) : bool :=
  match fst k1, fst k2 with
  | false, true => true
  | true, false => false
  | _, _ => String.ltb (snd k1) (snd k2)
  end.

Section Sorting.
Variable T : Type.
Variable key : T -> bool * string.

(** [sorted(items, key=key)]: the sort is stable, so an item goes before
    the first one that is not smaller. *)
Fixpoint insert_by_key (x : T) (l : list T) : list T :=
  match l with
  | [] => [x]
  | y :: l' =>
      if key_ltb (key y) (key x) then y :: insert_by_key x l'
      else x :: y :: l'
  end.

Definition sorted_by_key (l : list T) : list T :=
  fold_right insert_by_key [] l.
End Sorting.

Section Script.
(** Python's [str.lower]. *)
Variable lower : string -> string.

(** The body of the loop of [_walk] over the sorted entries; each entry
    comes with the lines [_walk] gives for it under a prefix. *)
Fixpoint walk_entries (prefix : string)
  (entries : list (entry * (string -> list string))) : list string :=
  match entries with
  | [] => []
  | (e, walk_e) :: rest =>
      let is_last := match rest with [] => true | _ => false end in
      let connector := if is_last then "└── " else "├── " in
      ((prefix ++ connector ++ entry_name e) ::
       (if is_dir e
        then let extension := if is_last then "    " else "│   " in
             walk_e (prefix ++ extension)
        else []))
      ++ walk_entries prefix rest
  end.

(** [_walk(dir_path, prefix)]: the lines it appends, for a directory. *)
Fixpoint _walk (dir_path : entry) (prefix : string) {struct dir_path}
  : list string :=
  match dir_path with
  | Dir _ children =>
      walk_entries prefix
        (sorted_by_key
           (fun p => (is_file (fst p), lower (entry_name (fst p))))
           (filter (fun p => negb (str_in (entry_name (fst p)) IGNORE_DIRS))
              (map (fun e => (e, _walk e)) children)))
  | _ => []
  end.

(** The [lines] of [_build_tree], for a root directory with its name and
    entries. *)
Definition tree_lines (root_name : string) (children : list entry)
  : list string :=
  (root_name ++ "/") :: _walk (Dir root_name children) EmptyString.

Definition _build_tree (root_name : string) (children : list entry)
  : string :=
  str_join newline (tree_lines root_name children).


End Script.

(** [str.lower] on the letters A to Z. *)
Definition ascii_lower_char (c : ascii) : ascii :=
  let n := nat_of_ascii c in
  if (65 <=? n)%nat && (n <=? 90)%nat then ascii_of_nat (n + 32) else c.

Fixpoint ascii_lower (s : string) : string :=
  match s with
  | EmptyString => EmptyString
  | String c s' => String (ascii_lower_char c) (ascii_lower s')
  end.

(** An entry that [_walk] lists: its name is not in [IGNORE_DIRS]. *)
Definition visible (e : entry) : bool :=
  negb (str_in (entry_name e) IGNORE_DIRS).

(** The number of entries [_walk] lists under an entry, itself included:
    the visible ones that sit under visible directories only. *)
Fixpoint visible_count (e : entry) : nat :=
  if visible e then
    S (match e with
       | Dir _ children => list_sum (map visible_count children)
       | _ => 0%nat
       end)
  else 0%nat.

(** The number of entries [_walk] lists under a directory. *)
Definition listed_below (e : entry) : nat :=
  match e with
  | Dir _ children => list_sum (map visible_count children)
  | _ => 0%nat
  end.

(** The disk without the ignored entries and all that is under them. *)
Fixpoint prune (e : entry) : entry :=
  match e with
  | Dir name children => Dir name (filter visible (map prune children))
  | _ => e
  end.

(** The sort key of [_walk]. *)
Definition entry_key (lower : string -> string) (e : entry)
  : bool * string :=
  (is_file e, lower (entry_name e)).

(** A list in which no item stands before one with a smaller key. *)
Definition ascending (T : Type) (key : T -> bool * string) (l : list T)
  : Prop :=
  StronglySorted (fun a b => key_ltb (key b) (key a) = false) l.

(** Two items that [_walk] cannot tell apart. *)
Definition same_item (it1 it2 : entry * (string -> list string)) : Prop :=
  entry_name (fst it1) = entry_name (fst it2) /\
  is_file (fst it1) = is_file (fst it2) /\
  is_dir (fst it1) = is_dir (fst it2) /\
  (forall p, snd it1 p = snd it2 p).

(** More test doubles. *)



(** A provider whose key contains a colon. *)
Definition ColonKey : client_type nat string :=
  {| __name__ := "ColonKey";
     provider := Some "open:ai";
     _create_client := fun m s => (Return m, s);
     generate := fun m conn msgs params s => (Return "pong", S s) |}.

(** A provider that answers at once. *)
Definition Echo : client_type nat string :=
  {| __name__ := "Echo";
     provider := Some "echo";
     _create_client := fun m s => (Return m, s);
     generate := fun m conn msgs params s => (Return "pong", S s) |}.

Definition with_echo : world nat string :=
  {| _REGISTRY := [("echo", Echo)]; vendor := 0%nat; trace := [] |}.

(** A specialisation a provider may add. *)
Definition QuotaExceeded : exc_class :=
  Subclass "QuotaExceeded" ProviderRateLimitError.

Definition no_kwargs : GenerateParameters_kwargs :=
  {| kw_temperature := None; kw_top_p := None; kw_max_tokens := None;
     kw_extra := [] |}.

(* ===================================================================== *)
(** ** Properties                                                         *)
(* ===================================================================== *)

Section LoopProperties.
Variables St Conn A : Type.
Implicit Types (w : world St Conn) (fn : Py St Conn A)
  (r : Retrying A) (rs : RetryCallState A).

(** One turn of the loop when no attempt has run yet. *)
Lemma retry_loop_attempt fuel r fn rs w :
  outcome_of rs = None ->
  retry_loop (S fuel) r fn rs w =
  retry_loop fuel r fn (set_outcome rs (fst (fn w))) (snd (fn w)).
Proof.
  intros Hnone. simpl. unfold iter. rewrite Hnone.
  destruct (fn w); reflexivity.
Qed.

(** One turn after an attempt whose outcome is accepted. *)
Lemma retry_loop_accept fuel r fn rs w res :
  outcome_of rs = Some res ->
  (match res with Raise e => isinstance e TryAgain | _ => false end
   || retry_ r rs) = false ->
  retry_loop (S fuel) r fn rs w = Some (res, w).
Proof.
  intros Hout Hno. simpl. unfold iter. rewrite Hout, Hno. reflexivity.
Qed.

(** One turn after the last allowed attempt, when it asks for a retry. *)
Lemma retry_loop_exhausted fuel r fn rs w res :
  outcome_of rs = Some res ->
  (match res with Raise e => isinstance e TryAgain | _ => false end
   || retry_ r rs) = true ->
  stop r rs = true ->
  reraise r = true ->
  retry_loop (S fuel) r fn rs w = Some (exhausted res, w).
Proof.
  intros Hout Hyes Hstop Hre. simpl. unfold iter.
  rewrite Hout, Hyes, Hstop, Hre. destruct res; reflexivity.
Qed.

(** One turn after an attempt that is to be retried: sleep, then go on
    with the next attempt. *)
Lemma retry_loop_sleep fuel r fn rs w res :
  outcome_of rs = Some res ->
  (match res with Raise e => isinstance e TryAgain | _ => false end
   || retry_ r rs) = true ->
  stop r rs = false ->
  0 <= wait r rs ->
  retry_loop (S fuel) r fn rs w =
  retry_loop fuel r fn (prepare_for_next_attempt rs (wait r rs))
    (log (EvSleep (wait r rs)) w).
Proof.
  intros Hout Hyes Hstop Hwait. simpl. unfold iter.
  rewrite Hout, Hyes, Hstop. simpl. unfold time_sleep.
  destruct (Z.ltb_spec (wait r rs) 0) as [Hneg|_]; [lia|reflexivity].
Qed.

(** A negative wait makes [time.sleep] raise, which ends the loop. *)
Lemma retry_loop_sleep_negative fuel r fn rs w res :
  outcome_of rs = Some res ->
  (match res with Raise e => isinstance e TryAgain | _ => false end
   || retry_ r rs) = true ->
  stop r rs = false ->
  wait r rs < 0 ->
  retry_loop (S fuel) r fn rs w =
  Some (Raise (Exc ValueError "sleep length must be non-negative"), w).
Proof.
  intros Hout Hyes Hstop Hwait. simpl. unfold iter.
  rewrite Hout, Hyes, Hstop. simpl. unfold time_sleep.
  destruct (Z.ltb_spec (wait r rs) 0) as [_|Hpos]; [reflexivity|lia].
Qed.

(** Running a recorded operation. *)
Lemma tell_lift_run (ev : event) (op : St -> outcome A * St) w :
  (tell ev ;;; lift op) w =
  (fst (op (vendor w)),
   {| _REGISTRY := _REGISTRY w; vendor := snd (op (vendor w));
      trace := trace w ++ [ev] |}).
Proof.
  unfold bind, tell, lift, log; simpl.
  destruct (op (vendor w)); reflexivity.
Qed.

Lemma attempts_spec_runs (wanted : outcome A -> bool) op k (s : St) :
  (1 <= snd (attempts_spec wanted op k s) <= S k)%nat.
Proof.
  revert s. induction k as [|k IH]; intros s; simpl.
  - destruct (op s) as [res s1]. destruct (wanted res); simpl; lia.
  - destruct (op s) as [res s1]. destruct (wanted res); simpl; [|lia].
    specialize (IH s1).
    destruct (attempts_spec wanted op k s1) as [[r2 s2] n]. simpl in *. lia.
Qed.

(** The loop, for a policy made of [stop_after_attempt] and [wait_fixed]
    with [reraise=True], runs the operation as [attempts_spec] says. *)
Lemma retry_loop_spec (wanted : outcome A -> bool) r
    (op : St -> outcome A * St) (ev : event) max_attempts wait_seconds :
  (forall rs res, outcome_of rs = Some res ->
     (match res with Raise e => isinstance e TryAgain | _ => false end
      || retry_ r rs) = wanted res) ->
  stop r = stop_after_attempt max_attempts ->
  wait r = wait_fixed wait_seconds ->
  reraise r = true ->
  0 <= wait_seconds ->
  forall k a idle w fuel,
    Z.to_nat (max_attempts - a) = k ->
    (2 * (k + 1) <= fuel)%nat ->
    retry_loop fuel r (tell ev ;;; lift op)
      {| attempt_number := a; outcome_of := None; idle_for := idle |} w =
    let '(res, s', n) := attempts_spec wanted op k (vendor w) in
    Some (res, {| _REGISTRY := _REGISTRY w; vendor := s';
                  trace := trace w ++ attempts_trace ev wait_seconds n |}).
Proof.
  intros Hwanted Hstop Hwait Hre Hws.
  induction k as [|k IH]; intros a idle w fuel Hk Hfuel;
    (destruct fuel as [|[|fuel]]; [simpl in Hfuel; lia ..|]);
    rewrite retry_loop_attempt by reflexivity;
    rewrite tell_lift_run; cbn [fst snd attempts_spec];
    destruct (op (vendor w)) as [res s1]; cbn [fst snd];
    destruct (wanted res) eqn:Hw.
  - rewrite retry_loop_exhausted with (res := res); trivial.
    + rewrite Hwanted; trivial.
    + rewrite Hstop. unfold stop_after_attempt; simpl. lia.
  - rewrite retry_loop_accept with (res := res); trivial.
    rewrite Hwanted; trivial.
  - rewrite retry_loop_sleep with (res := res); trivial.
    + rewrite Hwait. unfold wait_fixed, prepare_for_next_attempt, log.
      cbn [attempt_number idle_for set_outcome _REGISTRY vendor trace].
      rewrite IH by (simpl in *; lia).
      cbn [_REGISTRY vendor trace].
      pose proof (attempts_spec_runs wanted op k s1) as Hn.
      destruct (attempts_spec wanted op k s1) as [[r2 s2] n].
      cbn [snd] in Hn. destruct n as [|n]; [lia|].
      cbn [attempts_trace retries_trace].
      rewrite <- !app_assoc. reflexivity.
    + rewrite Hwanted; trivial.
    + rewrite Hstop. unfold stop_after_attempt; simpl. lia.
    + rewrite Hwait. exact Hws.
  - rewrite retry_loop_accept with (res := res); trivial.
    rewrite Hwanted; trivial.
Qed.

End LoopProperties.

Section TaxonomyProperties.

Lemma exc_class_eqb_eq (c d : exc_class) :
  exc_class_eqb c d = true <-> c = d.
Proof.
  unfold exc_class_eqb. destruct (exc_class_eq_dec c d); split;
    congruence.
Qed.

Lemma issubclass_In (c d : exc_class) :
  issubclass c d = true <-> In d (mro c).
Proof.
  unfold issubclass. rewrite existsb_exists. split.
  - intros [x [Hin Heq]]. apply exc_class_eqb_eq in Heq. subst. exact Hin.
  - intros Hin. exists d. split; [exact Hin|]. apply exc_class_eqb_eq.
    reflexivity.
Qed.

(** Every class derives from [BaseException] and from itself. *)
Lemma issubclass_refl (c : exc_class) : issubclass c c = true.
Proof. apply issubclass_In. destruct c; simpl; auto. Qed.

(** With single inheritance, a [ProviderError] is never a
    [tenacity.TryAgain]. *)
Lemma ProviderError_not_TryAgain (c : exc_class) :
  issubclass c ProviderError = true -> issubclass c TryAgain = false.
Proof.
  intros Hp. apply issubclass_In in Hp.
  destruct (issubclass c TryAgain) eqn:Ht; [|reflexivity].
  apply issubclass_In in Ht. exfalso.
  induction c; simpl in Hp, Ht;
    repeat match goal with
           | H : _ \/ _ |- _ => destruct H
           | H : False |- _ => destruct H
           | H : _ = _ |- _ => discriminate H
           end.
  auto.
Qed.

(** The rate-limit error is a provider error; the authorisation error is
    a provider error that is not a rate-limit error. *)
Lemma taxonomy :
  issubclass ProviderRateLimitError ProviderError = true /\
  issubclass ProviderAuthError ProviderError = true /\
  issubclass ProviderAuthError ProviderRateLimitError = false /\
  issubclass ProviderError ProviderRateLimitError = false /\
  issubclass ProviderError RuntimeError = true.
Proof. repeat split; reflexivity. Qed.

Lemma calls_app (t1 t2 : list event) :
  calls (t1 ++ t2) = (calls t1 + calls t2)%nat.
Proof.
  induction t1 as [|ev t1 IH]; simpl; [reflexivity|].
  destruct ev; simpl; rewrite IH; reflexivity.
Qed.

Lemma calls_attempts_trace (wait_seconds : Z) (n : nat) :
  calls (attempts_trace EvCall wait_seconds n) = n.
Proof.
  destruct n as [|k]; simpl; [reflexivity|]. f_equal.
  induction k as [|k IH]; simpl; [reflexivity|]. rewrite IH. reflexivity.
Qed.

End TaxonomyProperties.

Section DecoratorProperties.
Variables St Conn A Args : Type.
Implicit Types (w : world St Conn) (op : St -> outcome A * St)
  (fn : Args -> Py St Conn A).

(** [rate_limit_retry] refines the error-kind strategy of the
    specification, with [max_attempts - 1] retries. *)
Lemma rate_limit_retry_spec fn args ev op max_attempts wait_seconds fuel w :
  fn args = (tell ev ;;; lift op) ->
  0 <= wait_seconds ->
  (2 * (Z.to_nat (max_attempts - 1) + 1) <= fuel)%nat ->
  rate_limit_retry max_attempts wait_seconds fn args fuel w =
  let '(res, s', n) :=
    attempts_spec (error_kind_wanted ProviderRateLimitError) op
      (Z.to_nat (max_attempts - 1)) (vendor w) in
  Some (res, {| _REGISTRY := _REGISTRY w; vendor := s';
                trace := trace w ++ attempts_trace ev wait_seconds n |}).
Proof.
  intros Hfn Hws Hfuel. unfold rate_limit_retry, retry, begin.
  rewrite Hfn.
  apply retry_loop_spec with (max_attempts := max_attempts);
    trivial.
  intros rs res Hout. unfold retry_if_exception_type; simpl.
  rewrite Hout. destruct res; reflexivity.
Qed.

(** [llm_retry_decorator] refines the predicate strategy. *)
Lemma llm_retry_decorator_spec fn args ev op predicate max_attempts
    wait_seconds fuel w :
  fn args = (tell ev ;;; lift op) ->
  0 <= wait_seconds ->
  (2 * (Z.to_nat (max_attempts - 1) + 1) <= fuel)%nat ->
  llm_retry_decorator predicate max_attempts wait_seconds fn args fuel w =
  let '(res, s', n) :=
    attempts_spec (predicate_wanted predicate) op
      (Z.to_nat (max_attempts - 1)) (vendor w) in
  Some (res, {| _REGISTRY := _REGISTRY w; vendor := s';
                trace := trace w ++ attempts_trace ev wait_seconds n |}).
Proof.
  intros Hfn Hws Hfuel. unfold llm_retry_decorator, retry, begin.
  rewrite Hfn.
  apply retry_loop_spec with (max_attempts := max_attempts);
    trivial.
  intros rs res Hout. unfold retry_if_result; simpl.
  rewrite Hout. destruct res; simpl; [reflexivity|apply orb_false_r].
Qed.

(** Both decorators always come back: with a wait that is not negative,
    twice the number of allowed attempts is enough fuel. *)
Lemma rate_limit_retry_total fn args ev op max_attempts wait_seconds fuel w :
  fn args = (tell ev ;;; lift op) ->
  0 <= wait_seconds ->
  (2 * (Z.to_nat (max_attempts - 1) + 1) <= fuel)%nat ->
  exists res w',
    rate_limit_retry max_attempts wait_seconds fn args fuel w =
    Some (res, w').
Proof.
  intros Hfn Hws Hfuel.
  rewrite rate_limit_retry_spec with (ev := ev) (op := op); trivial.
  destruct (attempts_spec _ _ _ _) as [[res s'] n]. eauto.
Qed.

End DecoratorProperties.

Section RetryTheorems.
Variables St Conn A Args : Type.
Implicit Types (w : world St Conn) (op : Args -> St -> outcome A * St).

(** C2.  Error-kind retry.  An operation that raises
    [ProviderRateLimitError] on attempts 1 and 2 and returns [v] on
    attempt 3: wrapped with [max_attempts=3] the wrapper returns [v] and
    the operation has run exactly 3 times (with a sleep between two
    runs); wrapped with [max_attempts=2] the wrapper raises the
    rate-limit error of the second attempt, after exactly 2 runs.  The
    wait is any number of seconds that is not negative, among them the
    default of 1. *)
Theorem rate_limit_retry_third_attempt
    op args w s1 s2 s3 e1 e2 (v : A) wait_seconds fuel :
  0 <= wait_seconds ->
  (6 <= fuel)%nat ->
  op args (vendor w) = (Raise e1, s1) ->
  isinstance e1 ProviderRateLimitError = true ->
  op args s1 = (Raise e2, s2) ->
  isinstance e2 ProviderRateLimitError = true ->
  op args s2 = (Return v, s3) ->
  (rate_limit_retry 3 wait_seconds (fun a => spy (op a)) args fuel w =
     Some (Return v,
           {| _REGISTRY := _REGISTRY w; vendor := s3;
              trace := trace w ++
                       [EvCall; EvSleep wait_seconds; EvCall;
                        EvSleep wait_seconds; EvCall] |}) /\
   calls (trace w ++ [EvCall; EvSleep wait_seconds; EvCall;
                      EvSleep wait_seconds; EvCall]) =
     (calls (trace w) + 3)%nat) /\
  (rate_limit_retry 2 wait_seconds (fun a => spy (op a)) args fuel w =
     Some (Raise e2,
           {| _REGISTRY := _REGISTRY w; vendor := s2;
              trace := trace w ++
                       [EvCall; EvSleep wait_seconds; EvCall] |}) /\
   calls (trace w ++ [EvCall; EvSleep wait_seconds; EvCall]) =
     (calls (trace w) + 2)%nat).
Proof.
  intros Hws Hfuel H1 R1 H2 R2 H3.
  split; split; try (rewrite calls_app; reflexivity).
  - rewrite rate_limit_retry_spec with (ev := EvCall) (op := op args);
      [|reflexivity|exact Hws|simpl; lia].
    change (Z.to_nat (3 - 1)) with 2%nat. cbn [attempts_spec].
    rewrite H1. cbn [error_kind_wanted]. rewrite R1, orb_true_r.
    rewrite H2. cbn [error_kind_wanted]. rewrite R2, orb_true_r.
    rewrite H3. reflexivity.
  - rewrite rate_limit_retry_spec with (ev := EvCall) (op := op args);
      [|reflexivity|exact Hws|simpl; lia].
    change (Z.to_nat (2 - 1)) with 1%nat. cbn [attempts_spec].
    rewrite H1. cbn [error_kind_wanted]. rewrite R1, orb_true_r.
    rewrite H2. cbn [error_kind_wanted]. rewrite R2, orb_true_r.
    reflexivity.
Qed.

(** C3.  Error-kind retry never retries [ProviderAuthError], nor any
    [ProviderError] that is not a [ProviderRateLimitError]: when the
    first run of the operation raises one, the wrapper raises that very
    exception, the operation has run exactly once and nothing slept,
    whatever the attempt budget and the wait. *)
Theorem rate_limit_retry_other_error_propagates
    op args w s1 e max_attempts wait_seconds fuel :
  (2 <= fuel)%nat ->
  op args (vendor w) = (Raise e, s1) ->
  exc_type e = ProviderAuthError \/
  (isinstance e ProviderError = true /\
   isinstance e ProviderRateLimitError = false) ->
  rate_limit_retry max_attempts wait_seconds (fun a => spy (op a))
    args fuel w =
    Some (Raise e,
          {| _REGISTRY := _REGISTRY w; vendor := s1;
             trace := trace w ++ [EvCall] |}) /\
  calls (trace w ++ [EvCall]) = (calls (trace w) + 1)%nat.
Proof.
  intros Hfuel H1 Hkind.
  assert (isinstance e ProviderError = true /\
          isinstance e ProviderRateLimitError = false) as [Hprov Hnot].
  { destruct Hkind as [Hauth|Hother]; [|exact Hother].
    unfold isinstance. rewrite Hauth. split; reflexivity. }
  split; [|rewrite calls_app; reflexivity].
  destruct fuel as [|[|fuel]]; try lia.
  unfold rate_limit_retry, retry, begin.
  rewrite retry_loop_attempt by reflexivity.
  unfold spy. rewrite tell_lift_run, H1. cbn [fst snd].
  apply retry_loop_accept; [reflexivity|].
  cbn [retry_ retry_if_exception_type set_outcome outcome_of].
  rewrite Hnot, orb_false_r.
  apply ProviderError_not_TryAgain. exact Hprov.
Qed.

(** C8.  Predicate retry.  A normal return on which the predicate is
    false is accepted at once: the operation has run once.  An operation
    that returns ["retry-me"] on attempts 1 and 2 and ["ok"] on attempt
    3, wrapped with the predicate [value == "retry-me"] and
    [max_attempts=5], makes the wrapper return ["ok"] after exactly 3
    runs. *)
Theorem llm_retry_decorator_accepts
    op args w (predicate : A -> bool) (v : A) s1 max_attempts
    wait_seconds fuel
    (text_op : Args -> St -> outcome string * St) t1 t2 t3 pause fuel' :
  ((2 <= fuel)%nat ->
   op args (vendor w) = (Return v, s1) ->
   predicate v = false ->
   llm_retry_decorator predicate max_attempts wait_seconds
     (fun a => spy (op a)) args fuel w =
     Some (Return v,
           {| _REGISTRY := _REGISTRY w; vendor := s1;
              trace := trace w ++ [EvCall] |}) /\
   calls (trace w ++ [EvCall]) = (calls (trace w) + 1)%nat) /\
  (0 <= pause ->
   (10 <= fuel')%nat ->
   text_op args (vendor w) = (Return "retry-me", t1) ->
   text_op args t1 = (Return "retry-me", t2) ->
   text_op args t2 = (Return "ok", t3) ->
   llm_retry_decorator is_retry_me 5 pause
     (fun a => spy (text_op a)) args fuel' w =
     Some (Return "ok",
           {| _REGISTRY := _REGISTRY w; vendor := t3;
              trace := trace w ++
                       [EvCall; EvSleep pause; EvCall; EvSleep pause;
                        EvCall] |}) /\
   calls (trace w ++ [EvCall; EvSleep pause; EvCall; EvSleep pause;
                      EvCall]) = (calls (trace w) + 3)%nat).
Proof.
  split.
  - intros Hfuel H1 Hpred. split; [|rewrite calls_app; reflexivity].
    destruct fuel as [|[|fuel]]; try lia.
    unfold llm_retry_decorator, retry, begin.
    rewrite retry_loop_attempt by reflexivity.
    unfold spy. rewrite tell_lift_run, H1. cbn [fst snd].
    apply retry_loop_accept; [reflexivity|].
    cbn [retry_ retry_if_result set_outcome outcome_of].
    rewrite Hpred. reflexivity.
  - intros Hp Hfuel H1 H2 H3. split; [|rewrite calls_app; reflexivity].
    rewrite llm_retry_decorator_spec
      with (ev := EvCall) (op := text_op args);
      [|reflexivity|exact Hp|simpl; lia].
    change (Z.to_nat (5 - 1)) with 4%nat. cbn [attempts_spec].
    rewrite H1. cbn [predicate_wanted].
    change (is_retry_me "retry-me") with true. cbv iota.
    rewrite H2. cbn [predicate_wanted].
    change (is_retry_me "retry-me") with true. cbv iota.
    rewrite H3. reflexivity.
Qed.

End RetryTheorems.

Section ClientTheorems.
Variables St Conn : Type.
Implicit Types (w : world St Conn) (self : AbstractLLMClient St Conn).

(** With the error-kind strategy the result is always what some run of
    the operation produced: a returned value is never asked to be
    retried, and a failure is handed on as it is. *)
Lemma error_kind_result_is_an_outcome (A : Type) (c : exc_class)
    (op : St -> outcome A * St) k s :
  exists s0,
    op s0 = fst (attempts_spec (error_kind_wanted c) op k s).
Proof.
  revert s. induction k as [|k IH]; intros s; cbn [attempts_spec].
  - destruct (op s) as [res s1] eqn:Hop.
    destruct (error_kind_wanted c res) eqn:Hw; cbn [fst].
    + destruct res; [discriminate Hw|]. exists s. exact Hop.
    + exists s. exact Hop.
  - destruct (op s) as [res s1] eqn:Hop.
    destruct (error_kind_wanted c res) eqn:Hw; cbn [fst].
    + destruct (IH s1) as [s0 Hs0].
      destruct (attempts_spec (error_kind_wanted c) op k s1) as [[r2 s2] n].
      exists s0. exact Hs0.
    + exists s. exact Hop.
Qed.

(** C7.  [call_with_retry] is the error-kind strategy with 3 attempts
    (2 retries) and a wait of 1 second around [generate]: every attempt
    is one call of [generate] with the same messages and parameters, two
    attempts are 1 second apart, there are between 1 and 3 attempts, and
    the caller gets what the last call of [generate] produced, as it is;
    in particular, when three attempts raise, the exception of the third
    one comes out unchanged. *)
Theorem call_with_retry_policy self msgs params w fuel res s' n :
  (6 <= fuel)%nat ->
  attempts_spec (error_kind_wanted ProviderRateLimitError)
    (generate (cls_of self) (model self) (client self) msgs params)
    2 (vendor w) = (res, s', n) ->
  call_with_retry self msgs params fuel w =
    Some (res,
          {| _REGISTRY := _REGISTRY w; vendor := s';
             trace := trace w ++
                      attempts_trace (EvGenerate (model self) msgs params)
                        1 n |}) /\
  (1 <= n <= 3)%nat /\
  (exists s0,
     generate (cls_of self) (model self) (client self) msgs params s0 =
     (res, s')) /\
  (forall e1 e2 e3 s1 s2 s3,
     generate (cls_of self) (model self) (client self) msgs params
       (vendor w) = (Raise e1, s1) ->
     isinstance e1 ProviderRateLimitError = true ->
     generate (cls_of self) (model self) (client self) msgs params s1 =
       (Raise e2, s2) ->
     isinstance e2 ProviderRateLimitError = true ->
     generate (cls_of self) (model self) (client self) msgs params s2 =
       (Raise e3, s3) ->
     res = Raise e3 /\ s' = s3 /\ n = 3%nat).
Proof.
  intros Hfuel Hspec.
  set (gen := generate (cls_of self) (model self) (client self) msgs params)
    in *.
  pose proof (attempts_spec_runs
                (error_kind_wanted ProviderRateLimitError) gen 2
                (vendor w)) as Hn.
  rewrite Hspec in Hn. cbn [snd] in Hn.
  split; [|split; [lia|split]].
  - unfold call_with_retry.
    rewrite rate_limit_retry_spec
      with (ev := EvGenerate (model self) msgs params) (op := gen);
      [|reflexivity|lia|simpl; lia].
    change (Z.to_nat (3 - 1)) with 2%nat. rewrite Hspec. reflexivity.
  - destruct (error_kind_result_is_an_outcome ProviderRateLimitError gen
                2 (vendor w)) as [s0 Hs0].
    rewrite Hspec in Hs0. exists s0. exact Hs0.
  - intros e1 e2 e3 s1 s2 s3 G1 R1 G2 R2 G3.
    revert Hspec. cbn [attempts_spec]. rewrite G1.
    cbn [error_kind_wanted]. rewrite R1, orb_true_r.
    rewrite G2. cbn [error_kind_wanted]. rewrite R2, orb_true_r.
    rewrite G3.
    destruct (error_kind_wanted ProviderRateLimitError (Raise e3));
      cbn [exhausted]; intros Hspec; inversion Hspec; auto.
Qed.

End ClientTheorems.

Section StringProperties.

Lemma str_app_assoc (a b c : string) : (a ++ b) ++ c = a ++ (b ++ c).
Proof. induction a as [|x a IH]; simpl; [reflexivity|]. now rewrite IH. Qed.

Lemma str_app_empty_r (a : string) : a ++ EmptyString = a.
Proof. induction a as [|x a IH]; simpl; [reflexivity|]. now rewrite IH. Qed.

(** A string with the separator after a prefix free of it contains the
    separator, and one split cuts it there. *)
Lemma str_contains_app (c : ascii) (pk rest : string) :
  str_contains c (pk ++ String c rest) = true.
Proof.
  induction pk as [|x pk IH]; simpl.
  - now rewrite Ascii.eqb_refl.
  - destruct (Ascii.eqb x c); [reflexivity|exact IH].
Qed.

Lemma str_split_first (c : ascii) (pk rest : string) :
  str_contains c pk = false ->
  str_split c 1 (pk ++ String c rest) = [pk; rest].
Proof.
  induction pk as [|x pk IH]; cbn [append str_split str_contains];
    intros Hno.
  - rewrite Ascii.eqb_refl. destruct rest; reflexivity.
  - destruct (Ascii.eqb x c); [discriminate Hno|].
    cbn [str_split] in IH. rewrite (IH Hno). reflexivity.
Qed.

(** Every string that contains the separator is such a string, in one
    way: the prefix is what stands before the first separator. *)
Lemma first_separator (c : ascii) (s : string) :
  str_contains c s = true ->
  exists pk rest, s = pk ++ String c rest /\ str_contains c pk = false.
Proof.
  induction s as [|x s IH]; simpl; intros Hc; [discriminate Hc|].
  destruct (Ascii.eqb x c) eqn:Hx.
  - apply Ascii.eqb_eq in Hx. subst x.
    exists EmptyString, s. split; reflexivity.
  - destruct (IH Hc) as [pk [rest [Hs Hpk]]].
    exists (String x pk), rest. simpl. rewrite Hx, Hs. split; trivial.
Qed.

Lemma substring_of_refl (s : string) : substring_of s s.
Proof.
  exists EmptyString, EmptyString. simpl. now rewrite str_app_empty_r.
Qed.

Lemma substring_of_app (needle a b c : string) :
  substring_of needle b -> substring_of needle (a ++ b ++ c).
Proof.
  intros [before [after Hb]]. exists (a ++ before), (after ++ c).
  rewrite Hb, !str_app_assoc. reflexivity.
Qed.

Lemma substring_of_join (sep needle : string) (items : list string) :
  In needle items -> substring_of needle (str_join sep items).
Proof.
  induction items as [|x items IH]; intros Hin; [destruct Hin|].
  destruct Hin as [Hx|Hin].
  - subst x. destruct items as [|y items]; simpl.
    + apply substring_of_refl.
    + exists EmptyString, (sep ++ str_join sep (y :: items)). reflexivity.
  - destruct items as [|y items]; [destruct Hin|].
    change (str_join sep (x :: y :: items))
      with (x ++ sep ++ str_join sep (y :: items)).
    destruct (IH Hin) as [before [after Hb]].
    exists (x ++ sep ++ before), after.
    rewrite Hb, !str_app_assoc. reflexivity.
Qed.

(** The [repr] of a list shows the [repr] of each of its elements. *)
Lemma repr_list_shows (repr_str : string -> string) (k : string)
    (l : list string) :
  In k l -> substring_of (repr_str k) (repr_list repr_str l).
Proof.
  intros Hin. unfold repr_list. apply substring_of_app.
  apply substring_of_join. apply in_map. exact Hin.
Qed.

End StringProperties.

Section DictProperties.
Variable V : Type.
Implicit Types (d : dict V) (k : string) (v : V).

Lemma dict_get_set d k v k' :
  dict_get (dict_set d k v) k' =
  if String.eqb k k' then Some v else dict_get d k'.
Proof.
  induction d as [|[k0 v0] d IH]; simpl.
  - destruct (String.eqb k k'); reflexivity.
  - destruct (String.eqb_spec k0 k) as [->|Hne]; simpl.
    + destruct (String.eqb k k'); reflexivity.
    + rewrite IH. destruct (String.eqb_spec k0 k') as [->|Hne'].
      * destruct (String.eqb_spec k k'); [congruence|reflexivity].
      * reflexivity.
Qed.

(** Setting a new key appends it. *)
Lemma dict_set_new d k v :
  dict_get d k = None -> dict_set d k v = (d ++ [(k, v)])%list.
Proof.
  induction d as [|[k0 v0] d IH]; simpl; intros Hnone; [reflexivity|].
  destruct (String.eqb k0 k); [discriminate Hnone|].
  now rewrite IH.
Qed.

Lemma dict_get_In d k v : dict_get d k = Some v -> In k (dict_keys d).
Proof.
  induction d as [|[k0 v0] d IH]; simpl; intros Hget; [discriminate|].
  destruct (String.eqb_spec k0 k); auto.
Qed.

Lemma dict_get_None d k : dict_get d k = None -> ~ In k (dict_keys d).
Proof.
  induction d as [|[k0 v0] d IH]; simpl; intros Hget; [tauto|].
  destruct (String.eqb_spec k0 k) as [->|Hne]; [discriminate|].
  intros [Heq|Hin]; [contradiction|]. exact (IH Hget Hin).
Qed.

End DictProperties.

Section RegistryTheorems.
Variables St Conn : Type.
Variable repr_str : string -> string.
Implicit Types (w : world St Conn) (cls : client_type St Conn).

Lemma falsy_spec (key : option string) :
  falsy key = true <-> key = None \/ key = Some EmptyString.
Proof.
  destruct key as [k|]; simpl.
  - rewrite String.eqb_eq. split.
    + intros ->. now right.
    + intros [H|H]; congruence.
  - split; auto.
Qed.

(** What [register_provider] does, case by case. *)
Lemma register_provider_cases cls w :
  register_provider cls w =
  match provider cls with
  | None => (Raise (Exc ValueError missing_provider_msg), w)
  | Some key =>
      if String.eqb key EmptyString
      then (Raise (Exc ValueError missing_provider_msg), w)
      else
        match dict_get (_REGISTRY w) key with
        | Some holder =>
            (Raise (Exc ValueError
                      (already_registered_msg key (__name__ holder))),
             {| _REGISTRY := _REGISTRY w; vendor := vendor w;
                trace := trace w ++ [EvRegistryContains key;
                                     EvRegistryGetItem key] |})
        | None =>
            (Return cls,
             {| _REGISTRY := (_REGISTRY w ++ [(key, cls)])%list;
                vendor := vendor w;
                trace := trace w ++ [EvRegistryContains key;
                                     EvRegistrySetItem key (__name__ cls)]
             |})
        end
  end.
Proof.
  unfold register_provider.
  destruct (provider cls) as [key|]; simpl; [|reflexivity].
  destruct (String.eqb key EmptyString); [reflexivity|].
  unfold bind, registry_contains, registry_getitem, registry_setitem,
    dict_contains, raise, ret, log; simpl.
  destruct (dict_get (_REGISTRY w) key) as [holder|] eqn:Hget; simpl.
  - rewrite Hget. rewrite <- app_assoc. reflexivity.
  - rewrite (dict_set_new _ _ cls Hget), <- app_assoc. reflexivity.
Qed.

(** C4.  [register_provider] keeps at most one client type per key.
    Whatever the call, the keys stay distinct and a type already
    registered stays where it is.  Under an occupied key the call fails
    with a [ValueError]; with a missing or empty key it fails with a
    [ValueError]; whenever it fails the registry is what it was; and a
    call that succeeded, repeated with the same class, fails and leaves
    the registry as the first call left it. *)
Theorem register_provider_one_type_per_key cls w :
  (NoDup (dict_keys (_REGISTRY w)) ->
   NoDup (dict_keys (_REGISTRY (snd (register_provider cls w))))) /\
  (forall k c,
     dict_get (_REGISTRY w) k = Some c ->
     dict_get (_REGISTRY (snd (register_provider cls w))) k = Some c) /\
  (forall key holder,
     provider cls = Some key ->
     dict_get (_REGISTRY w) key = Some holder ->
     exists msg,
       fst (register_provider cls w) = Raise (Exc ValueError msg) /\
       (key <> EmptyString ->
        msg = already_registered_msg key (__name__ holder))) /\
  (provider cls = None \/ provider cls = Some EmptyString ->
   fst (register_provider cls w) =
     Raise (Exc ValueError missing_provider_msg)) /\
  (forall e,
     fst (register_provider cls w) = Raise e ->
     _REGISTRY (snd (register_provider cls w)) = _REGISTRY w) /\
  (forall c,
     fst (register_provider cls w) = Return c ->
     c = cls /\
     exists key msg,
       provider cls = Some key /\
       dict_get (_REGISTRY (snd (register_provider cls w))) key
         = Some cls /\
       fst (register_provider cls (snd (register_provider cls w)))
         = Raise (Exc ValueError msg) /\
       _REGISTRY (snd (register_provider cls
                         (snd (register_provider cls w))))
         = _REGISTRY (snd (register_provider cls w))).
Proof.
  rewrite register_provider_cases.
  destruct (provider cls) as [key|] eqn:Hprov.
  2:{ cbn [fst snd].
      split; [|split; [|split; [|split; [|split]]]]; auto.
      - intros key holder Hkey. discriminate Hkey.
      - intros c Hc. discriminate Hc. }
  destruct (String.eqb_spec key EmptyString) as [Hempty|Hne].
  { cbn [fst snd].
    split; [|split; [|split; [|split; [|split]]]]; auto.
    - intros key' holder Hkey Hget. injection Hkey as <-.
      exists missing_provider_msg. split; [reflexivity|].
      intros Hk. contradiction.
    - intros c Hc. discriminate Hc. }
  destruct (dict_get (_REGISTRY w) key) as [holder|] eqn:Hget;
    cbn [fst snd _REGISTRY].
  - split; [|split; [|split; [|split; [|split]]]]; auto.
    + intros key' holder' Hkey Hget'. injection Hkey as <-.
      rewrite Hget in Hget'. injection Hget' as <-.
      eexists. split; reflexivity.
    + intros [H|H]; [discriminate H|]. injection H as H. contradiction.
    + intros c Hc. discriminate Hc.
  - assert (Hnow : dict_get (_REGISTRY w ++ [(key, cls)])%list key
                   = Some cls).
    { rewrite <- (dict_set_new _ _ cls Hget), dict_get_set.
      now rewrite String.eqb_refl. }
    split; [|split; [|split; [|split; [|split]]]].
    + intros Hnodup. unfold dict_keys. rewrite map_app. simpl.
      apply NoDup_app; [exact Hnodup|repeat constructor; intros []|].
      intros k Hin [Hk|[]]. subst k.
      apply (dict_get_None _ _ Hget). exact Hin.
    + intros k c Hk.
      rewrite <- (dict_set_new _ _ cls Hget), dict_get_set.
      destruct (String.eqb_spec key k) as [->|_]; [congruence|exact Hk].
    + intros key' holder' Hkey Hget'. injection Hkey as <-. congruence.
    + intros [H|H]; [discriminate H|]. injection H as H. contradiction.
    + intros e He. discriminate He.
    + intros c Hc. injection Hc as <-. split; [reflexivity|].
      exists key, (already_registered_msg key (__name__ cls)).
      rewrite register_provider_cases, Hprov.
      destruct (String.eqb_spec key EmptyString); [contradiction|].
      cbn [_REGISTRY]. rewrite Hnow. cbn [fst snd _REGISTRY].
      repeat split; trivial.
Qed.

End RegistryTheorems.

Section ResolverProperties.
Variables St Conn : Type.
Variable repr_str : string -> string.
Implicit Types (w : world St Conn) (cls : client_type St Conn).

(** What [cls(model=model_name)] does. *)
Lemma instantiate_run cls model_name w :
  instantiate cls model_name w =
  (match fst (_create_client cls model_name (vendor w)) with
   | Return conn =>
       Return {| cls_of := cls; model := model_name; client := conn |}
   | Raise e => Raise e
   end,
   {| _REGISTRY := _REGISTRY w;
      vendor := snd (_create_client cls model_name (vendor w));
      trace := trace w ++ [EvInstantiate (__name__ cls) model_name] |}).
Proof.
  unfold instantiate, bind, tell, lift, ret, log; simpl.
  destruct (_create_client cls model_name (vendor w)) as [[conn|e] s'];
    reflexivity.
Qed.

(** What [resolve_client] does on a string with a colon, by the segment
    before the first colon. *)
Lemma resolve_client_cases pk model_name w :
  str_contains ":"%char pk = false ->
  resolve_client repr_str (pk ++ ":" ++ model_name) w =
  match dict_get (_REGISTRY w) pk with
  | Some cls =>
      (match fst (_create_client cls model_name (vendor w)) with
       | Return conn =>
           Return {| cls_of := cls; model := model_name; client := conn |}
       | Raise e => Raise e
       end,
       {| _REGISTRY := _REGISTRY w;
          vendor := snd (_create_client cls model_name (vendor w));
          trace := trace w ++ [EvRegistryGetItem pk;
                               EvInstantiate (__name__ cls) model_name] |})
  | None =>
      (Raise (ExcFrom ValueError
                (unknown_provider_msg repr_str pk
                   (dict_keys (_REGISTRY w)))
                (Exc KeyError pk)),
       {| _REGISTRY := _REGISTRY w; vendor := vendor w;
          trace := trace w ++ [EvRegistryGetItem pk; EvRegistryKeys] |})
  end.
Proof.
  intros Hpk. unfold resolve_client.
  change (":" ++ model_name) with (String ":"%char model_name).
  rewrite str_contains_app, str_split_first by exact Hpk. cbn [negb].
  unfold bind at 1. unfold try_except, registry_getitem.
  destruct (dict_get (_REGISTRY w) pk) as [cls|].
  - rewrite instantiate_run. unfold log; cbn [_REGISTRY vendor trace].
    rewrite <- app_assoc. reflexivity.
  - change (isinstance (Exc KeyError pk) KeyError) with true. cbv iota.
    unfold bind, registry_keys, raise, log; cbn [_REGISTRY vendor trace].
    rewrite <- app_assoc. reflexivity.
Qed.

(** [resolve_client] never changes the registry. *)
Lemma resolve_client_registry model_uri w :
  _REGISTRY (snd (resolve_client repr_str model_uri w)) = _REGISTRY w.
Proof.
  destruct (str_contains ":"%char model_uri) eqn:Hc.
  - destruct (first_separator _ _ Hc) as [pk [rest [-> Hpk]]].
    change (String ":"%char rest) with (":" ++ rest).
    rewrite resolve_client_cases by exact Hpk.
    destruct (dict_get (_REGISTRY w) pk); reflexivity.
  - unfold resolve_client. rewrite Hc. reflexivity.
Qed.

End ResolverProperties.

Section ResolverTheorems.
Variables St Conn : Type.
Variable repr_str : string -> string.
Implicit Types (w : world St Conn) (cls : client_type St Conn).

(** No reachable registry has the empty string among its keys. *)
Lemma reachable_no_empty_key w :
  reachable w -> dict_get (_REGISTRY w) EmptyString = None.
Proof.
  induction 1 as [w Hinit|w cls _ IH|r w uri _ IH|w s t _ IH].
  - rewrite Hinit. reflexivity.
  - rewrite register_provider_cases.
    destruct (provider cls) as [key|]; [|exact IH].
    destruct (String.eqb_spec key EmptyString) as [_|Hne]; [exact IH|].
    destruct (dict_get (_REGISTRY w) key) eqn:Hget; cbn [snd _REGISTRY];
      [exact IH|].
    rewrite <- (dict_set_new _ _ cls Hget), dict_get_set.
    destruct (String.eqb_spec key EmptyString); [contradiction|exact IH].
  - rewrite resolve_client_registry. exact IH.
  - exact IH.
Qed.

(** C1, as amended.  For a string [pk:model_name] whose [pk] (the text
    before the first colon) is a registered key, [resolve_client]
    instantiates the registered class with everything after the first
    colon as the model: when the connection step [_create_client]
    returns, the result is an instance of that class whose [model] is
    [model_name], further colons included; when it raises, that
    exception comes out of [resolve_client]. *)
Theorem resolve_client_registered pk model_name cls w :
  str_contains ":"%char pk = false ->
  dict_get (_REGISTRY w) pk = Some cls ->
  (forall conn s',
     _create_client cls model_name (vendor w) = (Return conn, s') ->
     resolve_client repr_str (pk ++ ":" ++ model_name) w =
     (Return {| cls_of := cls; model := model_name; client := conn |},
      {| _REGISTRY := _REGISTRY w; vendor := s';
         trace := trace w ++ [EvRegistryGetItem pk;
                              EvInstantiate (__name__ cls) model_name] |}))
  /\
  (forall e s',
     _create_client cls model_name (vendor w) = (Raise e, s') ->
     resolve_client repr_str (pk ++ ":" ++ model_name) w =
     (Raise e,
      {| _REGISTRY := _REGISTRY w; vendor := s';
         trace := trace w ++ [EvRegistryGetItem pk;
                              EvInstantiate (__name__ cls) model_name] |})).
Proof.
  intros Hpk Hget.
  split; intros x s' Hcreate;
    rewrite resolve_client_cases by exact Hpk;
    rewrite Hget, Hcreate; reflexivity.
Qed.

(** C5.  On a string without a colon [resolve_client] raises the format
    error, whose message names the [provider:model] shape, and leaves
    the world as it was: the registry is neither read nor changed and no
    client is instantiated. *)
Theorem resolve_client_without_colon model_uri w :
  str_contains ":"%char model_uri = false ->
  resolve_client repr_str model_uri w =
    (Raise (Exc ValueError format_error_msg), w) /\
  substring_of "provider:model" format_error_msg.
Proof.
  intros Hc. split.
  - unfold resolve_client. rewrite Hc. reflexivity.
  - exists "model_uri must be in '", "' format (e.g. 'openai:gpt-4o')".
    reflexivity.
Qed.

(** C6.  On a string with a colon whose provider-key segment is not
    registered, [resolve_client] raises the unknown-provider error; its
    message shows every registered key; the registry is read (the
    lookup, then the list of keys) and no client is instantiated. *)
Theorem resolve_client_unknown_provider pk model_name w :
  str_contains ":"%char pk = false ->
  dict_get (_REGISTRY w) pk = None ->
  resolve_client repr_str (pk ++ ":" ++ model_name) w =
    (Raise (ExcFrom ValueError
              (unknown_provider_msg repr_str pk (dict_keys (_REGISTRY w)))
              (Exc KeyError pk)),
     {| _REGISTRY := _REGISTRY w; vendor := vendor w;
        trace := trace w ++ [EvRegistryGetItem pk; EvRegistryKeys] |}) /\
  (forall k,
     In k (dict_keys (_REGISTRY w)) ->
     substring_of (repr_str k)
       (unknown_provider_msg repr_str pk (dict_keys (_REGISTRY w)))).
Proof.
  intros Hpk Hget. split.
  - rewrite resolve_client_cases by exact Hpk. rewrite Hget. reflexivity.
  - intros k Hin. unfold unknown_provider_msg.
    destruct (repr_list_shows repr_str _ _ Hin) as [before [after Hl]].
    exists ("Unknown provider '" ++ pk ++ "'. Registered: " ++ before),
           after.
    rewrite Hl, !str_app_assoc. reflexivity.
Qed.

(** C10.  In every reachable world the empty string is not a registered
    key, because [register_provider] refuses it; so a string that starts
    with a colon passes the format check of [resolve_client] and gets
    the unknown-provider error, not the format error. *)
Theorem resolve_client_leading_colon model_name w :
  reachable w ->
  dict_get (_REGISTRY w) EmptyString = None /\
  (forall cls,
     provider cls = Some EmptyString ->
     register_provider cls w =
       (Raise (Exc ValueError missing_provider_msg), w)) /\
  resolve_client repr_str (":" ++ model_name) w =
    (Raise (ExcFrom ValueError
              (unknown_provider_msg repr_str EmptyString
                 (dict_keys (_REGISTRY w)))
              (Exc KeyError EmptyString)),
     {| _REGISTRY := _REGISTRY w; vendor := vendor w;
        trace := trace w ++ [EvRegistryGetItem EmptyString;
                             EvRegistryKeys] |}) /\
  unknown_provider_msg repr_str EmptyString (dict_keys (_REGISTRY w))
    <> format_error_msg.
Proof.
  intros Hreach.
  pose proof (reachable_no_empty_key Hreach) as Hnone.
  split; [exact Hnone|split; [|split]].
  - intros cls Hprov. rewrite register_provider_cases, Hprov. reflexivity.
  - change (":" ++ model_name) with (EmptyString ++ ":" ++ model_name).
    rewrite resolve_client_cases by reflexivity.
    rewrite Hnone. reflexivity.
  - unfold unknown_provider_msg, format_error_msg. cbn [append].
    discriminate.
Qed.

End ResolverTheorems.

Section FloatProperties.

Lemma digits2_pos_bounds (m : positive) :
  2 ^ (Zpos (digits2_pos m) - 1) <= Zpos m < 2 ^ Zpos (digits2_pos m).
Proof.
  induction m as [m IH|m IH|]; cbn [digits2_pos].
  - rewrite Pos2Z.inj_succ.
    replace (Z.succ (Zpos (digits2_pos m)) - 1)
      with (Z.succ (Zpos (digits2_pos m) - 1)) by lia.
    rewrite !Z.pow_succ_r by lia. lia.
  - rewrite Pos2Z.inj_succ.
    replace (Z.succ (Zpos (digits2_pos m)) - 1)
      with (Z.succ (Zpos (digits2_pos m) - 1)) by lia.
    rewrite !Z.pow_succ_r by lia. lia.
  - simpl. lia.
Qed.

(** A dyadic number against a power of two, in integers. *)
Lemma dyadic_le_pow2 (m : positive) (e k : Z) :
  (inject_Z (Zpos m) * 2 ^ e <= 2 ^ k)%Q <->
  0 <= k - e /\ Zpos m <= 2 ^ (k - e).
Proof.
  assert (H2 : ~ (2 == 0)%Q) by discriminate.
  assert (Hpos : (0 < 2 ^ e)%Q) by (apply Qpower_0_lt; reflexivity).
  assert (Hk : (2 ^ k == 2 ^ (k - e) * 2 ^ e)%Q).
  { rewrite <- Qpower_plus by exact H2. f_equiv. lia. }
  rewrite Hk, Qmult_le_r by exact Hpos.
  destruct (Z.leb_spec 0 (k - e)) as [Hge|Hlt].
  - change (2 ^ (k - e))%Q with (inject_Z 2 ^ (k - e))%Q.
    rewrite <- Zpower_Qpower by exact Hge. rewrite <- Zle_Qle. tauto.
  - split; [|lia]. intros Hle. exfalso.
    assert (Hsmall : (2 ^ (k - e) < 2 ^ 0)%Q).
    { apply Qpower_lt_compat_l; [lia|reflexivity]. }
    assert (Hone : (inject_Z 1 <= inject_Z (Zpos m))%Q).
    { rewrite <- Zle_Qle. lia. }
    apply (Qlt_irrefl (inject_Z 1)).
    eapply Qle_lt_trans; [exact Hone|].
    eapply Qle_lt_trans; [exact Hle|exact Hsmall].
Qed.

(** A positive binary64 number against the float [2^k]. *)
Lemma finite_leb_pow2 (m : positive) (e k : Z) :
  bounded prec emax m e = true ->
  -1022 <= k ->
  SFleb (S754_finite false m e)
        (S754_finite false 4503599627370496 (k - 52)) = true <->
  0 <= k - e /\ Zpos m <= 2 ^ (k - e).
Proof.
  intros Hb Hk.
  unfold bounded, canonical_mantissa, fexp, emin, prec, emax in Hb.
  apply andb_prop in Hb. destruct Hb as [Hcanon _].
  apply Z.eqb_eq in Hcanon.
  pose proof (digits2_pos_bounds m) as Hd. revert Hd Hcanon.
  generalize (Zpos (digits2_pos m)). intros d [Hlow Hhigh] Hcanon.
  unfold SFleb, SFcompare.
  assert (Hcases : e < k - 52 \/ e = k - 52 \/ k - 52 < e) by lia.
  destruct Hcases as [Hlt|[Heq|Hgt]].
  - rewrite (proj2 (Z.compare_lt_iff _ _) Hlt).
    split; [intros _|reflexivity]. split; [lia|].
    assert (Hd : d <= 53) by lia.
    assert (2 ^ d <= 2 ^ (k - e)) by (apply Z.pow_le_mono_r; lia).
    lia.
  - rewrite (proj2 (Z.compare_eq_iff _ _) Heq).
    subst e. replace (k - (k - 52)) with 52 by lia.
    change (2 ^ 52) with (Zpos 4503599627370496).
    rewrite Pos.compare_cont_spec, Pos2Z.inj_compare.
    clear Hlow Hhigh Hcanon.
    destruct (Z.compare_spec (Zpos m) (Zpos 4503599627370496))
      as [He|Hl|Hg]; cbn [Pos.switch_Eq].
    + split; [intros _|reflexivity]. lia.
    + split; [intros _|reflexivity]. lia.
    + split; [discriminate|]. lia.
  - rewrite (proj2 (Z.compare_gt_iff _ _) Hgt).
    split; [discriminate|]. intros [Hge Hle]. exfalso.
    assert (Hd : d = 53) by lia.
    rewrite Hd in Hlow. change (2 ^ (53 - 1)) with (2 ^ 52) in Hlow.
    assert (2 ^ (k - e) < 2 ^ 52) by (apply Z.pow_lt_mono_r; lia).
    lia.
Qed.

(** The checks [ge=0.0, le=2^k] pass exactly on the numbers from 0 to
    [2^k]. *)
Lemma float_between_zero_and_pow2 (x hi : float) (k : Z) :
  float_val hi = S754_finite false 4503599627370496 (k - 52) ->
  -1022 <= k ->
  float_leb float_zero x && float_leb x hi = true <->
  in_closed_interval 0 (2 ^ k) x.
Proof.
  intros Hhi Hk. unfold float_leb, in_closed_interval, float_value.
  rewrite Hhi. destruct x as [xv Hvalid]. cbn [float_val float_zero].
  destruct xv as [s|s| |s m e].
  - split; [intros _|destruct s; reflexivity].
    exists 0%Q. split; [reflexivity|]. split; [apply Qle_refl|].
    apply Qpower_0_le. discriminate.
  - split; [destruct s; discriminate|].
    intros [q [Hq _]]. discriminate Hq.
  - split; [discriminate|]. intros [q [Hq _]]. discriminate Hq.
  - destruct s.
    + split; [discriminate|]. intros [q [Hq [Hge _]]]. exfalso.
      injection Hq as <-. cbn [cond_Zopp] in Hge.
      apply (Qlt_irrefl 0). eapply Qle_lt_trans; [exact Hge|].
      assert (Hp : (0 < 2 ^ e)%Q) by (apply Qpower_0_lt; reflexivity).
      rewrite <- (Qmult_0_l (2 ^ e)).
      apply Qmult_lt_compat_r; [exact Hp|]. reflexivity.
    + change (SFleb (S754_zero false) (S754_finite false m e)) with true.
      cbn [andb cond_Zopp].
      rewrite (finite_leb_pow2 _ _ Hvalid Hk), <- dyadic_le_pow2.
      split.
      * intros Hle. eexists. split; [reflexivity|]. split; [|exact Hle].
        apply Qmult_le_0_compat; [discriminate|].
        apply Qpower_0_le. discriminate.
      * intros [q [Hq [_ Hle]]]. injection Hq as <-. exact Hle.
Qed.

End FloatProperties.

Section ParameterTheorems.

Lemma temperature_ok_iff (v : option float) :
  float_ok temperature_field v = true <->
  (forall t, v = Some t -> in_closed_interval 0 2 t).
Proof.
  destruct v as [t|].
  - assert (Hshape : float_ok temperature_field (Some t) =
                     float_leb float_zero t && float_leb t float_two).
    { unfold float_ok, optional_field_ok, field_ok, temperature_field.
      cbn [ge gt le lt].
      destruct (float_leb float_zero t), (float_leb t float_two);
        reflexivity. }
    rewrite Hshape.
    rewrite float_between_zero_and_pow2 with (k := 1)
      by (reflexivity || lia).
    change (2 ^ 1)%Q with 2%Q.
    split.
    + intros Hin t0 Ht. injection Ht as <-. exact Hin.
    + intros Hall. apply Hall. reflexivity.
  - split; [intros _ t Ht; discriminate Ht|reflexivity].
Qed.

Lemma top_p_ok_iff (v : option float) :
  float_ok top_p_field v = true <->
  (forall p, v = Some p -> in_closed_interval 0 1 p).
Proof.
  destruct v as [t|].
  - assert (Hshape : float_ok top_p_field (Some t) =
                     float_leb float_zero t && float_leb t float_one).
    { unfold float_ok, optional_field_ok, field_ok, top_p_field.
      cbn [ge gt le lt].
      destruct (float_leb float_zero t), (float_leb t float_one);
        reflexivity. }
    rewrite Hshape.
    rewrite float_between_zero_and_pow2 with (k := 0)
      by (reflexivity || lia).
    change (2 ^ 0)%Q with 1%Q.
    split.
    + intros Hin t0 Ht. injection Ht as <-. exact Hin.
    + intros Hall. apply Hall. reflexivity.
  - split; [intros _ t Ht; discriminate Ht|reflexivity].
Qed.

Lemma max_tokens_ok_iff (v : option Z) :
  int_ok max_tokens_field v = true <->
  (forall n, v = Some n -> 256 < n <= 16384).
Proof.
  destruct v as [n|].
  - assert (Hshape : int_ok max_tokens_field (Some n) =
                     (256 <? n) && (n <=? 16384)).
    { unfold int_ok, optional_field_ok, field_ok, max_tokens_field.
      cbn [ge gt le lt].
      destruct (256 <? n), (n <=? 16384); reflexivity. }
    rewrite Hshape, andb_true_iff, Z.ltb_lt, Z.leb_le. split.
    + intros Hn n0 Hn0. injection Hn0 as <-. exact Hn.
    + intros Hall. apply Hall. reflexivity.
  - split; [intros _ n Hn; discriminate Hn|reflexivity].
Qed.

Lemma validate_field_some (A : Type) (ok : option A -> bool)
    (default : option A) (supplied : option (option A)) :
  (exists v, validate_field ok default supplied = Some v) <->
  (forall v, supplied = Some v -> ok v = true).
Proof.
  destruct supplied as [v|]; cbn.
  - destruct (ok v) eqn:Hok; split.
    + intros _ v0 Hv0. injection Hv0 as <-. exact Hok.
    + intros _. eauto.
    + intros [v0 Hv0]. discriminate Hv0.
    + intros Hall. rewrite (Hall v eq_refl) in Hok. discriminate Hok.
  - split; [intros _ v Hv; discriminate Hv|eauto].
Qed.

(** C9.  Constructing [GenerateParameters] succeeds exactly when every
    supplied option passes: a supplied temperature is a number from 0 to
    2 (both included), a supplied top_p a number from 0 to 1 (both
    included), a supplied max_tokens an integer above 256 and at most
    16384; an option supplied as [None] or omitted always passes.  The
    extra fields are kept as they were supplied, whatever they are, and
    the recognised options keep the supplied values (the defaults when
    omitted). *)
Theorem GenerateParameters_validation (kw : GenerateParameters_kwargs) :
  ((exists p, GenerateParameters_init kw = Return p) <->
   (forall t, kw_temperature kw = Some (Some t) ->
              in_closed_interval 0 2 t) /\
   (forall p, kw_top_p kw = Some (Some p) -> in_closed_interval 0 1 p) /\
   (forall n, kw_max_tokens kw = Some (Some n) -> 256 < n <= 16384)) /\
  (forall p,
     GenerateParameters_init kw = Return p ->
     model_extra p = kw_extra kw /\
     temperature p = match kw_temperature kw with
                     | Some v => v | None => temperature_default end /\
     top_p p = match kw_top_p kw with
               | Some v => v | None => top_p_default end /\
     max_tokens p = match kw_max_tokens kw with
                    | Some v => v | None => max_tokens_default end) /\
  ((forall p, GenerateParameters_init kw <> Return p) ->
   exists msg, GenerateParameters_init kw = Raise (Exc ValidationError msg)).
Proof.
  pose proof (validate_field_some (float_ok temperature_field)
                temperature_default (kw_temperature kw)) as Ht.
  pose proof (validate_field_some (float_ok top_p_field)
                top_p_default (kw_top_p kw)) as Hp.
  pose proof (validate_field_some (int_ok max_tokens_field)
                max_tokens_default (kw_max_tokens kw)) as Hm.
  assert (Htemp : (forall v, kw_temperature kw = Some v ->
                     float_ok temperature_field v = true) <->
                  (forall t, kw_temperature kw = Some (Some t) ->
                     in_closed_interval 0 2 t)).
  { split.
    - intros Hall t Hk. apply (proj1 (temperature_ok_iff (Some t)));
        [apply Hall; exact Hk|reflexivity].
    - intros Hall v Hk. apply temperature_ok_iff. intros t ->.
      apply Hall. exact Hk. }
  assert (Htop : (forall v, kw_top_p kw = Some v ->
                    float_ok top_p_field v = true) <->
                 (forall p, kw_top_p kw = Some (Some p) ->
                    in_closed_interval 0 1 p)).
  { split.
    - intros Hall t Hk. apply (proj1 (top_p_ok_iff (Some t)));
        [apply Hall; exact Hk|reflexivity].
    - intros Hall v Hk. apply top_p_ok_iff. intros t ->.
      apply Hall. exact Hk. }
  assert (Hmax : (forall v, kw_max_tokens kw = Some v ->
                    int_ok max_tokens_field v = true) <->
                 (forall n, kw_max_tokens kw = Some (Some n) ->
                    256 < n <= 16384)).
  { split.
    - intros Hall n Hk. apply (proj1 (max_tokens_ok_iff (Some n)));
        [apply Hall; exact Hk|reflexivity].
    - intros Hall v Hk. apply max_tokens_ok_iff. intros n ->.
      apply Hall. exact Hk. }
  rewrite <- Htemp, <- Htop, <- Hmax, <- Ht, <- Hp, <- Hm.
  clear Ht Hp Hm Htemp Htop Hmax.
  unfold GenerateParameters_init.
  destruct (validate_field (float_ok temperature_field)
              temperature_default (kw_temperature kw)) as [t|] eqn:Et;
    destruct (validate_field (float_ok top_p_field)
                top_p_default (kw_top_p kw)) as [p|] eqn:Ep;
    destruct (validate_field (int_ok max_tokens_field)
                max_tokens_default (kw_max_tokens kw)) as [m|] eqn:Em.
  all: split; [split|split].
  all: try (intros [q Hq]; discriminate Hq).
  all: try (intros [[v Hv] [[v2 Hv2] [v3 Hv3]]]; discriminate).
  all: try (intros q Hq; discriminate Hq).
  all: try (intros _; eexists; reflexivity).
  - intros _. repeat split; eauto.
  - intros q Hq. injection Hq as <-. cbn.
    unfold validate_field in Et, Ep, Em.
    destruct (kw_temperature kw) as [vt|];
      destruct (kw_top_p kw) as [vp|];
      destruct (kw_max_tokens kw) as [vm|];
      repeat match goal with
             | H : (if ?c then _ else _) = Some _ |- _ =>
                 destruct c; [|discriminate H]
             | H : Some _ = Some _ |- _ => injection H as <-
             end; repeat split; reflexivity.
  - intros Hnot. exfalso. eapply Hnot. reflexivity.
Qed.

End ParameterTheorems.

(* ===================================================================== *)
(** ** The properties at work on the test doubles                         *)
(* ===================================================================== *)

(** [resolve("openai:org/gpt-4o:v2")] keeps the colons of the model name. *)
Lemma resolve_client_registered_example :
  str_contains ":"%char "openai" = false /\
  dict_get (_REGISTRY with_openai) "openai" = Some FakeOpenAI /\
  resolve_client plain_repr ("openai" ++ ":" ++ "org/gpt-4o:v2") with_openai =
    (Return {| cls_of := FakeOpenAI; model := "org/gpt-4o:v2";
               client := "org/gpt-4o:v2" |},
     {| _REGISTRY := _REGISTRY with_openai; vendor := 0%nat;
        trace := [EvRegistryGetItem "openai";
                  EvInstantiate "FakeOpenAI" "org/gpt-4o:v2"] |}).
Proof.
  split; [reflexivity|split; [reflexivity|]].
  apply (proj1 (@resolve_client_registered nat string plain_repr "openai"
                  "org/gpt-4o:v2" FakeOpenAI with_openai eq_refl eq_refl)).
  reflexivity.
Defined.

(** A registered provider whose connection step raises: [resolve_client]
    raises, it returns no instance. *)
Lemma resolve_client_registered_may_raise :
  str_contains ":"%char "anthropic:claude-3" = true /\
  dict_get (_REGISTRY (snd (register_provider NoCredentials fresh)))
    "anthropic" = Some NoCredentials /\
  fst (resolve_client plain_repr "anthropic:claude-3"
         (snd (register_provider NoCredentials fresh))) =
    Raise (Exc ProviderAuthError "401") /\
  ~ (exists inst w',
       resolve_client plain_repr "anthropic:claude-3"
         (snd (register_provider NoCredentials fresh)) = (Return inst, w')).
Proof.
  repeat split; try reflexivity.
  intros [inst [w' H]]. discriminate H.
Qed.

Lemma rate_limit_retry_third_attempt_example :
  rate_limit_retry 3 1 (fun a : unit => spy (fun s => flaky_op s)) tt 6 fresh =
    Some (Return "done",
          {| _REGISTRY := []; vendor := 3%nat;
             trace := [EvCall; EvSleep 1; EvCall; EvSleep 1; EvCall] |}) /\
  rate_limit_retry 2 1 (fun a : unit => spy (fun s => flaky_op s)) tt 6 fresh =
    Some (Raise (Exc ProviderRateLimitError "429"),
          {| _REGISTRY := []; vendor := 2%nat;
             trace := [EvCall; EvSleep 1; EvCall] |}).
Proof.
  pose proof (@rate_limit_retry_third_attempt nat string string unit
                (fun _ s => flaky_op s) tt fresh 1%nat 2%nat 3%nat
                (Exc ProviderRateLimitError "429")
                (Exc ProviderRateLimitError "429") "done" 1 6
                ltac:(lia) ltac:(lia) eq_refl eq_refl eq_refl eq_refl eq_refl)
    as [[H3 _] [H2 _]].
  split; [exact H3|exact H2].
Defined.

Lemma rate_limit_retry_other_error_example :
  rate_limit_retry 3 1 (fun a : unit => spy (fun s => unauthorized_op s))
    tt 6 fresh =
    Some (Raise (Exc ProviderAuthError "401"),
          {| _REGISTRY := []; vendor := 1%nat; trace := [EvCall] |}).
Proof.
  apply (@rate_limit_retry_other_error_propagates nat string string unit
           (fun _ s => unauthorized_op s) tt fresh 1%nat
           (Exc ProviderAuthError "401") 3 1 6
           ltac:(lia) eq_refl (or_introl eq_refl)).
Defined.

Lemma call_with_retry_example :
  call_with_retry {| cls_of := FakeOpenAI; model := "m"; client := "m" |}
    hello defaults 6 fresh =
    Some (Return "done",
          {| _REGISTRY := []; vendor := 3%nat;
             trace := [EvGenerate "m" hello defaults; EvSleep 1;
                       EvGenerate "m" hello defaults; EvSleep 1;
                       EvGenerate "m" hello defaults] |}).
Proof.
  apply (@call_with_retry_policy nat string
           {| cls_of := FakeOpenAI; model := "m"; client := "m" |}
           hello defaults fresh 6 (Return "done") 3%nat 3%nat
           ltac:(lia) eq_refl).
Defined.

Lemma llm_retry_decorator_example :
  llm_retry_decorator (fun n => Z.eqb n 0) 5 1
    (fun a : unit => spy (fun s : nat => (Return 7, S s)))
    tt 2 fresh =
    Some (Return 7,
          {| _REGISTRY := (@nil (string * client_type nat string));
             vendor := 1%nat; trace := [EvCall] |}) /\
  llm_retry_decorator is_retry_me 5 1
    (fun a : unit => spy (fun s => retry_me_op s)) tt 10 fresh =
    Some (Return "ok",
          {| _REGISTRY := []; vendor := 3%nat;
             trace := [EvCall; EvSleep 1; EvCall; EvSleep 1; EvCall] |}).
Proof.
  pose proof (@llm_retry_decorator_accepts nat string Z unit
                (fun _ s => (Return 7, S s)) tt fresh
                (fun n => Z.eqb n 0) 7 1%nat 5 1 2
                (fun _ s => retry_me_op s) 1%nat 2%nat 3%nat 1 10)
    as [Hfirst Hthird].
  split.
  - apply Hfirst; [lia|reflexivity|reflexivity].
  - apply Hthird; [lia|lia|reflexivity|reflexivity|reflexivity].
Defined.

Lemma register_provider_conflict_example :
  fst (register_provider FakeOther with_openai) =
    Raise (Exc ValueError
             "Provider 'openai' already registered by FakeOpenAI") /\
  _REGISTRY (snd (register_provider FakeOther with_openai)) =
    [("openai", FakeOpenAI)] /\
  fst (register_provider Unnamed with_openai) =
    Raise (Exc ValueError missing_provider_msg).
Proof.
  pose proof (@register_provider_one_type_per_key nat string FakeOther
                with_openai)
    as [_ [_ [Hocc [_ [Hfail _]]]]].
  pose proof (@register_provider_one_type_per_key nat string Unnamed
                with_openai)
    as [_ [_ [_ [Hmissing _]]]].
  destruct (Hocc "openai" FakeOpenAI eq_refl eq_refl) as [msg [Hmsg Hwhich]].
  split; [|split].
  - rewrite Hmsg, Hwhich; [reflexivity|discriminate].
  - apply (Hfail _ Hmsg).
  - apply Hmissing. left. reflexivity.
Defined.

Lemma resolve_client_without_colon_example :
  str_contains ":"%char "no-colon-here" = false /\
  resolve_client plain_repr "no-colon-here" with_openai =
    (Raise (Exc ValueError format_error_msg), with_openai).
Proof.
  split; [reflexivity|].
  apply (proj1 (@resolve_client_without_colon nat string plain_repr
                  "no-colon-here" with_openai eq_refl)).
Defined.

Lemma resolve_client_unknown_provider_example :
  resolve_client plain_repr ("unknownprov" ++ ":" ++ "x") with_openai =
    (Raise (ExcFrom ValueError
              "Unknown provider 'unknownprov'. Registered: ['openai']"
              (Exc KeyError "unknownprov")),
     {| _REGISTRY := [("openai", FakeOpenAI)]; vendor := 0%nat;
        trace := [EvRegistryGetItem "unknownprov"; EvRegistryKeys] |}) /\
  substring_of "'openai'"
    "Unknown provider 'unknownprov'. Registered: ['openai']".
Proof.
  pose proof (@resolve_client_unknown_provider nat string plain_repr
                "unknownprov" "x" with_openai eq_refl eq_refl)
    as [Hraise Hlists].
  split; [exact Hraise|].
  apply (Hlists "openai"). left. reflexivity.
Defined.

Lemma resolve_client_leading_colon_example :
  reachable (snd (register_provider FakeOpenAI fresh)) /\
  fst (resolve_client plain_repr (":" ++ "gpt-4")
         (snd (register_provider FakeOpenAI fresh))) =
    Raise (ExcFrom ValueError "Unknown provider ''. Registered: ['openai']"
             (Exc KeyError EmptyString)).
Proof.
  assert (Hreach : reachable (snd (register_provider FakeOpenAI fresh))).
  { apply reach_register. apply reach_startup. reflexivity. }
  split; [exact Hreach|].
  destruct (@resolve_client_leading_colon nat string plain_repr "gpt-4"
              _ Hreach) as [_ [_ [Hraise _]]].
  rewrite Hraise. reflexivity.
Defined.

Lemma GenerateParameters_validation_example :
  (exists p,
     GenerateParameters_init
       {| kw_temperature := Some (Some float_two);
          kw_top_p := None;
          kw_max_tokens := Some (Some 257);
          kw_extra := [("seed", PyInt 7)] |} = Return p) /\
  ~ (exists p,
       GenerateParameters_init
         {| kw_temperature := None;
            kw_top_p := None;
            kw_max_tokens := Some (Some 256);
            kw_extra := [] |} = Return p).
Proof.
  split.
  - eexists. reflexivity.
  - intros Hok.
    apply (proj1 (proj1 (GenerateParameters_validation _))) in Hok.
    destruct Hok as [_ [_ Hmax]].
    specialize (Hmax 256 eq_refl). lia.
Defined.

(* ===================================================================== *)
(** ** Further properties of the retry decorators                         *)
(* ===================================================================== *)

Section AttemptSequences.
Variables St A : Type.
Implicit Types (op : St -> outcome A * St) (wanted : outcome A -> bool).




End AttemptSequences.

Section DecoratorBudget.
Variables St Conn A Args : Type.
Implicit Types (w : world St Conn) (op : Args -> St -> outcome A * St).

Lemma budget_retries (max_attempts : Z) :
  budget max_attempts = S (Z.to_nat (max_attempts - 1)).
Proof. unfold budget. lia. Qed.

(** X1.  Whatever the operation does, [rate_limit_retry] comes back, has
    run it at least once and at most [max(1, max_attempts)] times, and has
    slept [wait_seconds] between two runs and at no other time. *)
Theorem rate_limit_retry_within_budget
    op args w max_attempts wait_seconds fuel :
  0 <= wait_seconds ->
  (2 * budget max_attempts <= fuel)%nat ->
  exists res s' n,
    rate_limit_retry max_attempts wait_seconds (fun a => spy (op a))
      args fuel w =
      Some (res, {| _REGISTRY := _REGISTRY w; vendor := s';
                    trace := trace w ++
                             attempts_trace EvCall wait_seconds n |}) /\
    (1 <= n <= budget max_attempts)%nat /\
    calls (trace w ++ attempts_trace EvCall wait_seconds n) =
      (calls (trace w) + n)%nat.
Proof.
  intros Hws Hfuel. rewrite budget_retries in *.
  rewrite rate_limit_retry_spec with (ev := EvCall) (op := op args);
    [|reflexivity|exact Hws|lia].
  pose proof (attempts_spec_runs
                (error_kind_wanted ProviderRateLimitError) (op args)
                (Z.to_nat (max_attempts - 1)) (vendor w)) as Hn.
  destruct (attempts_spec _ _ _ _) as [[res s'] n]. cbn [snd] in Hn.
  exists res, s', n. split; [reflexivity|split; [exact Hn|]].
  rewrite calls_app, calls_attempts_trace. reflexivity.
Qed.



(** X4.  With [max_attempts] at most 1 (zero and negative numbers
    included) [rate_limit_retry] runs the operation exactly once and hands
    on its outcome, a rate-limit error too; it never sleeps, so the wait
    does not matter. *)
Theorem rate_limit_retry_single_attempt
    op args w max_attempts wait_seconds fuel :
  max_attempts <= 1 ->
  (2 <= fuel)%nat ->
  rate_limit_retry max_attempts wait_seconds (fun a => spy (op a))
    args fuel w =
    Some (fst (op args (vendor w)),
          {| _REGISTRY := _REGISTRY w; vendor := snd (op args (vendor w));
             trace := trace w ++ [EvCall] |}).
Proof.
  intros Hmax Hfuel. destruct fuel as [|[|fuel]]; try lia.
  unfold rate_limit_retry, retry, begin.
  rewrite retry_loop_attempt by reflexivity.
  unfold spy. rewrite tell_lift_run. cbn [fst snd].
  destruct (op args (vendor w)) as [res s1]. cbn [fst snd].
  destruct (error_kind_wanted ProviderRateLimitError res) eqn:Hw.
  - destruct res as [v|e]; [discriminate Hw|].
    apply retry_loop_exhausted with (res := Raise e).
    + reflexivity.
    + exact Hw.
    + unfold stop_after_attempt; simpl. lia.
    + reflexivity.
  - apply retry_loop_accept; [reflexivity|].
    destruct res; [reflexivity|exact Hw].
Qed.

(** X5.  A negative [wait_seconds] breaks the first retry: when the first
    run raises a rate-limit error and more attempts are allowed, the sleep
    is refused and [rate_limit_retry] raises that [ValueError]; the
    operation is not run again. *)
Theorem rate_limit_retry_negative_wait
    op args w e s1 max_attempts wait_seconds fuel :
  wait_seconds < 0 ->
  2 <= max_attempts ->
  (2 <= fuel)%nat ->
  op args (vendor w) = (Raise e, s1) ->
  isinstance e ProviderRateLimitError = true ->
  rate_limit_retry max_attempts wait_seconds (fun a => spy (op a))
    args fuel w =
    Some (Raise (Exc ValueError "sleep length must be non-negative"),
          {| _REGISTRY := _REGISTRY w; vendor := s1;
             trace := trace w ++ [EvCall] |}).
Proof.
  intros Hws Hmax Hfuel Hop Hrl. destruct fuel as [|[|fuel]]; try lia.
  unfold rate_limit_retry, retry, begin.
  rewrite retry_loop_attempt by reflexivity.
  unfold spy. rewrite tell_lift_run, Hop. cbn [fst snd].
  apply retry_loop_sleep_negative with (res := Raise e).
  - reflexivity.
  - cbn [retry_ retry_if_exception_type set_outcome outcome_of].
    rewrite Hrl. apply orb_true_r.
  - unfold stop_after_attempt; simpl. lia.
  - exact Hws.
Qed.



End DecoratorBudget.

(* ===================================================================== *)
(** ** Further properties of the registry and the resolver                *)
(* ===================================================================== *)

Section RegistryComposition.
Variables St Conn : Type.
Variable repr_str : string -> string.
Implicit Types (w : world St Conn) (cls : client_type St Conn).

(** X8.  Registering then resolving: once a class is registered under a
    new key that is not empty and has no colon, [resolve_client] on
    [key:model_name] instantiates that class; with a connection step that
    returns, the result is an instance of the class for [model_name]. *)
Theorem register_then_resolve cls key model_name conn s' w :
  provider cls = Some key ->
  key <> EmptyString ->
  str_contains ":"%char key = false ->
  dict_get (_REGISTRY w) key = None ->
  _create_client cls model_name (vendor w) = (Return conn, s') ->
  fst (register_provider cls w) = Return cls /\
  fst (resolve_client repr_str (key ++ ":" ++ model_name)
         (snd (register_provider cls w))) =
    Return {| cls_of := cls; model := model_name; client := conn |}.
Proof.
  intros Hprov Hne Hcolon Hfree Hcreate.
  rewrite register_provider_cases, Hprov.
  destruct (String.eqb_spec key EmptyString); [contradiction|].
  rewrite Hfree. cbn [fst snd]. split; [reflexivity|].
  rewrite resolve_client_cases by exact Hcolon. cbn [_REGISTRY vendor].
  rewrite <- (dict_set_new _ _ cls Hfree), dict_get_set, String.eqb_refl.
  cbn [fst]. rewrite Hcreate. reflexivity.
Qed.

(** X9.  A provider key that contains a colon can be registered, but
    [resolve_client] never asks the registry for it: whatever the string,
    the events it adds hold no lookup of such a key, so no string resolves
    to that entry. *)
Theorem resolve_client_never_looks_up_colon_key key cls model_uri w :
  str_contains ":"%char key = true ->
  (provider cls = Some key ->
   dict_get (_REGISTRY w) key = None ->
   fst (register_provider cls w) = Return cls /\
   dict_get (_REGISTRY (snd (register_provider cls w))) key = Some cls) /\
  exists added,
    trace (snd (resolve_client repr_str model_uri w))
      = (trace w ++ added)%list /\
    ~ In (EvRegistryGetItem key) added.
Proof.
  intros Hkey. split.
  - intros Hprov Hfree. rewrite register_provider_cases, Hprov.
    destruct (String.eqb_spec key EmptyString) as [->|_];
      [discriminate Hkey|].
    rewrite Hfree. cbn [fst snd _REGISTRY]. split; [reflexivity|].
    rewrite <- (dict_set_new _ _ cls Hfree), dict_get_set.
    now rewrite String.eqb_refl.
  - destruct (str_contains ":"%char model_uri) eqn:Hc.
    + destruct (first_separator _ _ Hc) as [pk [rest [-> Hpk]]].
      change (String ":"%char rest) with (":" ++ rest).
      rewrite resolve_client_cases by exact Hpk.
      assert (Hdiff : pk <> key) by (intros ->; congruence).
      destruct (dict_get (_REGISTRY w) pk) as [c|]; cbn [snd trace];
        eexists; (split; [reflexivity|]);
        intros [Hin|[Hin|[]]]; try discriminate Hin;
        injection Hin as Hin; contradiction.
    + unfold resolve_client. rewrite Hc. cbn [negb snd raise].
      exists []. split; [symmetry; apply app_nil_r|intros []].
Qed.

(** [register_provider] only ever appends: the registry it leaves is the
    one it found, followed by at most one new item. *)
Lemma register_provider_appends cls w :
  exists tail,
    _REGISTRY (snd (register_provider cls w)) = (_REGISTRY w ++ tail)%list /\
    (List.length tail <= 1)%nat.
Proof.
  rewrite register_provider_cases.
  destruct (provider cls) as [key|];
    [|exists []; split; [symmetry; apply app_nil_r|simpl; lia]].
  destruct (String.eqb key EmptyString);
    [exists []; split; [symmetry; apply app_nil_r|simpl; lia]|].
  destruct (dict_get (_REGISTRY w) key); cbn [snd _REGISTRY].
  - exists []. split; [symmetry; apply app_nil_r|simpl; lia].
  - exists [(key, cls)]. split; [reflexivity|simpl; lia].
Qed.

(** X10.  The registry is append-only: after any run of registrations the
    items that were there stand first, in the same order, so
    [list(_REGISTRY)] shows the keys in the order they were first
    registered; at most one item is added per call. *)
Theorem register_all_appends (classes : list (client_type St Conn)) w :
  exists tail,
    _REGISTRY (register_all classes w) = (_REGISTRY w ++ tail)%list /\
    (List.length tail <= List.length classes)%nat.
Proof.
  revert w. induction classes as [|cls classes IH]; intros w.
  - exists []. split; [symmetry; apply app_nil_r|simpl; lia].
  - cbn [register_all fold_left].
    destruct (IH (snd (register_provider cls w))) as [tail2 [H2 L2]].
    destruct (register_provider_appends cls w) as [tail1 [H1 L1]].
    exists (tail1 ++ tail2)%list. split.
    + unfold register_all in H2. rewrite H2, H1, app_assoc. reflexivity.
    + rewrite List.length_app. simpl. lia.
Qed.

(** One registration, seen through a lookup. *)
Lemma register_provider_lookup cls w key :
  key <> EmptyString ->
  dict_get (_REGISTRY (snd (register_provider cls w))) key =
  match dict_get (_REGISTRY w) key with
  | Some holder => Some holder
  | None => first_with_key key [cls]
  end.
Proof.
  intros Hne. rewrite register_provider_cases.
  unfold first_with_key. cbn [find].
  destruct (provider cls) as [k|]; cbn [snd].
  2:{ destruct (dict_get (_REGISTRY w) key); reflexivity. }
  destruct (String.eqb_spec k EmptyString) as [->|Hk]; cbn [snd].
  { destruct (String.eqb_spec EmptyString key) as [He|_];
      [congruence|]. destruct (dict_get (_REGISTRY w) key); reflexivity. }
  destruct (dict_get (_REGISTRY w) k) as [holder|] eqn:Hget;
    cbn [snd _REGISTRY].
  - destruct (String.eqb_spec k key) as [->|_].
    + rewrite Hget. reflexivity.
    + destruct (dict_get (_REGISTRY w) key); reflexivity.
  - rewrite <- (dict_set_new _ _ cls Hget), dict_get_set.
    destruct (String.eqb_spec k key) as [->|_].
    + rewrite Hget. reflexivity.
    + destruct (dict_get (_REGISTRY w) key); reflexivity.
Qed.

(** X11.  First writer wins: after any run of registrations, a key that
    was registered before keeps its class, and a key that was not holds
    the first class of the run that names it; later classes with the same
    key change nothing.  The empty key is never registered. *)
Theorem register_all_first_wins (classes : list (client_type St Conn))
    w key :
  key <> EmptyString ->
  dict_get (_REGISTRY (register_all classes w)) key =
  match dict_get (_REGISTRY w) key with
  | Some holder => Some holder
  | None => first_with_key key classes
  end.
Proof.
  intros Hne. revert w.
  induction classes as [|cls classes IH]; intros w.
  - cbn. destruct (dict_get (_REGISTRY w) key); reflexivity.
  - cbn [register_all fold_left]. unfold register_all in IH.
    rewrite IH, (register_provider_lookup cls w Hne).
    destruct (dict_get (_REGISTRY w) key) as [holder|]; [reflexivity|].
    unfold first_with_key. cbn [find].
    destruct (match provider cls with
              | Some k => String.eqb k key
              | None => false
              end); reflexivity.
Qed.

(** X12.  [resolve_client] is read-only on the registry: whatever the
    string and whether it returns or raises, the registry is what it was,
    so a later lookup or registration sees the same items. *)
Theorem resolve_client_leaves_registry model_uri w cls :
  _REGISTRY (snd (resolve_client repr_str model_uri w)) = _REGISTRY w /\
  fst (register_provider cls (snd (resolve_client repr_str model_uri w))) =
    fst (register_provider cls w).
Proof.
  pose proof (resolve_client_registry repr_str model_uri w) as Hreg.
  split; [exact Hreg|].
  rewrite !register_provider_cases, Hreg.
  destruct (provider cls) as [key|]; [|reflexivity].
  destruct (String.eqb key EmptyString); [reflexivity|].
  destruct (dict_get (_REGISTRY w) key); reflexivity.
Qed.

(** X13.  No caching: two calls of [resolve_client] with the same string
    run the connection step twice, the second on the outside state the
    first one left; each successful call builds its own instance. *)
Theorem resolve_client_twice pk model_name cls conn1 s1 conn2 s2 w :
  str_contains ":"%char pk = false ->
  dict_get (_REGISTRY w) pk = Some cls ->
  _create_client cls model_name (vendor w) = (Return conn1, s1) ->
  _create_client cls model_name s1 = (Return conn2, s2) ->
  fst (resolve_client repr_str (pk ++ ":" ++ model_name) w) =
    Return {| cls_of := cls; model := model_name; client := conn1 |} /\
  resolve_client repr_str (pk ++ ":" ++ model_name)
    (snd (resolve_client repr_str (pk ++ ":" ++ model_name) w)) =
    (Return {| cls_of := cls; model := model_name; client := conn2 |},
     {| _REGISTRY := _REGISTRY w; vendor := s2;
        trace := trace w ++
                 [EvRegistryGetItem pk;
                  EvInstantiate (__name__ cls) model_name;
                  EvRegistryGetItem pk;
                  EvInstantiate (__name__ cls) model_name] |}).
Proof.
  intros Hpk Hget Hc1 Hc2.
  rewrite !resolve_client_cases by exact Hpk.
  rewrite Hget, Hc1. cbn [fst snd _REGISTRY vendor trace].
  rewrite Hget, Hc2. cbn [fst snd].
  split; [reflexivity|]. rewrite <- app_assoc. reflexivity.
Qed.

End RegistryComposition.

Section ClientComposition.
Variables St Conn : Type.
Variable repr_str : string -> string.
Implicit Types (w : world St Conn) (cls : client_type St Conn)
  (self : AbstractLLMClient St Conn).

(** The first outcome of [generate], when it asks for no retry, is the
    result of [call_with_retry]. *)
Lemma call_with_retry_accepts self msgs params w res s1 fuel :
  (2 <= fuel)%nat ->
  generate (cls_of self) (model self) (client self) msgs params (vendor w)
    = (res, s1) ->
  error_kind_wanted ProviderRateLimitError res = false ->
  call_with_retry self msgs params fuel w =
    Some (res,
          {| _REGISTRY := _REGISTRY w; vendor := s1;
             trace := trace w ++ [EvGenerate (model self) msgs params] |}).
Proof.
  intros Hfuel Hgen Hw. destruct fuel as [|[|fuel]]; try lia.
  unfold call_with_retry, rate_limit_retry, retry, begin.
  rewrite retry_loop_attempt by reflexivity.
  cbn [call_with_retry_body]. rewrite tell_lift_run, Hgen. cbn [fst snd].
  apply retry_loop_accept; [reflexivity|].
  cbn [retry_ retry_if_exception_type set_outcome outcome_of].
  destruct res as [text|e]; [reflexivity|exact Hw].
Qed.

(** X14.  [call_with_retry] hands on the first outcome of [generate] when
    it is a returned text or a provider error other than a rate-limit
    error: one call of [generate], no sleep. *)
Theorem call_with_retry_first_outcome_final self msgs params w res s1 fuel :
  (2 <= fuel)%nat ->
  generate (cls_of self) (model self) (client self) msgs params (vendor w)
    = (res, s1) ->
  (forall e, res = Raise e ->
     isinstance e ProviderError = true /\
     isinstance e ProviderRateLimitError = false) ->
  call_with_retry self msgs params fuel w =
    Some (res,
          {| _REGISTRY := _REGISTRY w; vendor := s1;
             trace := trace w ++ [EvGenerate (model self) msgs params] |}).
Proof.
  intros Hfuel Hgen Hkind.
  apply call_with_retry_accepts; [exact Hfuel|exact Hgen|].
  destruct res as [text|e]; [reflexivity|].
  destruct (Hkind e eq_refl) as [Hprov Hnot].
  cbn [error_kind_wanted]. rewrite Hnot, orb_false_r.
  apply ProviderError_not_TryAgain. exact Hprov.
Qed.

(** X15.  From a model URI to a text: for a registered provider whose
    connection step returns, resolving [pk:model_name] and calling
    [call_with_retry] on the instance calls the [generate] of the
    registered class with [model_name] and the connection just made; when
    that call returns a text, the caller gets it after one lookup, one
    instantiation and one generation. *)
Theorem resolve_then_call_with_retry
    pk model_name cls conn s1 msgs params text s2 w fuel :
  (2 <= fuel)%nat ->
  str_contains ":"%char pk = false ->
  dict_get (_REGISTRY w) pk = Some cls ->
  _create_client cls model_name (vendor w) = (Return conn, s1) ->
  generate cls model_name conn msgs params s1 = (Return text, s2) ->
  exists self w1,
    resolve_client repr_str (pk ++ ":" ++ model_name) w = (Return self, w1) /\
    call_with_retry self msgs params fuel w1 =
      Some (Return text,
            {| _REGISTRY := _REGISTRY w; vendor := s2;
               trace := trace w ++
                        [EvRegistryGetItem pk;
                         EvInstantiate (__name__ cls) model_name;
                         EvGenerate model_name msgs params] |}).
Proof.
  intros Hfuel Hpk Hget Hcreate Hgen.
  eexists. eexists. split.
  - rewrite resolve_client_cases by exact Hpk.
    rewrite Hget, Hcreate. reflexivity.
  - rewrite call_with_retry_accepts with (res := Return text) (s1 := s2).
    + cbn [_REGISTRY trace model]. rewrite <- app_assoc. reflexivity.
    + exact Hfuel.
    + exact Hgen.
    + reflexivity.
Qed.

End ClientComposition.

(* ===================================================================== *)
(** ** Further properties of the taxonomy and of the parameters           *)
(* ===================================================================== *)

Section TaxonomyTheorems.

(** Deriving is transitive. *)
Lemma issubclass_trans (c d e : exc_class) :
  issubclass c d = true -> issubclass d e = true -> issubclass c e = true.
Proof.
  rewrite !issubclass_In. revert d e.
  induction c; intros d e Hd He;
    try (simpl in Hd;
         repeat (destruct Hd as [<-|Hd]; [simpl in He; simpl; tauto|]);
         destruct Hd).
  cbn [mro] in Hd |- *. destruct Hd as [<-|Hd].
  - exact He.
  - right. exact (IHc d e Hd He).
Qed.

(** X16.  [ProviderError] is the parent of every provider error: an
    exception of a class derived, through any chain of subclasses, from
    [ProviderRateLimitError] or [ProviderAuthError] is caught by
    [except ProviderError] and by [except RuntimeError]. *)
Theorem except_ProviderError_catches (W A : Type) (body : M W A)
    (handler : exception -> M W A) (w w' : W) (e : exception) :
  body w = (Raise e, w') ->
  isinstance e ProviderRateLimitError = true \/
  isinstance e ProviderAuthError = true ->
  try_except body ProviderError handler w = handler e w' /\
  try_except body RuntimeError handler w = handler e w'.
Proof.
  intros Hbody Hkind.
  assert (Hprov : isinstance e ProviderError = true).
  { destruct Hkind as [H|H];
      apply (issubclass_trans _ _ ProviderError H); reflexivity. }
  assert (Hrun : isinstance e RuntimeError = true).
  { apply (issubclass_trans _ _ RuntimeError Hprov); reflexivity. }
  unfold try_except. rewrite Hbody, Hprov, Hrun. split; reflexivity.
Qed.

End TaxonomyTheorems.

Section ParameterRoundTrip.

(** X17.  A record that [GenerateParameters] returned passes validation
    again, unchanged, when all its fields are supplied: the defaults 0.7
    and 1.0 lie within the bounds of their own fields. *)
Theorem GenerateParameters_revalidates (kw : GenerateParameters_kwargs)
    (p : GenerateParameters) :
  GenerateParameters_init kw = Return p ->
  GenerateParameters_init (kwargs_of p) = Return p.
Proof.
  unfold GenerateParameters_init, validate_field. intros Hinit.
  assert (Hfields :
            float_ok temperature_field (temperature p) = true /\
            float_ok top_p_field (top_p p) = true /\
            int_ok max_tokens_field (max_tokens p) = true).
  { destruct (kw_temperature kw) as [vt|];
      [destruct (float_ok temperature_field vt) eqn:Et;
       [|discriminate Hinit]|];
      (destruct (kw_top_p kw) as [vp|];
       [destruct (float_ok top_p_field vp) eqn:Ep; [|discriminate Hinit]|]);
      (destruct (kw_max_tokens kw) as [vm|];
       [destruct (int_ok max_tokens_field vm) eqn:Em;
        [|discriminate Hinit]|]);
      injection Hinit as <-; cbn [temperature top_p max_tokens];
      repeat split; assumption || reflexivity. }
  destruct Hfields as [Ht [Hp Hm]].
  cbn [kwargs_of kw_temperature kw_top_p kw_max_tokens kw_extra].
  rewrite Ht, Hp, Hm. destruct p; reflexivity.
Qed.

End ParameterRoundTrip.

(* ===================================================================== *)
(** ** Properties of the export script                                    *)
(* ===================================================================== *)

Section FileSectionTheorems.
Variable lower : string -> string.







End FileSectionTheorems.

Section KeyOrder.

Lemma ascii_compare_lt_trans (a b c : ascii) :
  Ascii.compare a b = Lt -> Ascii.compare b c = Lt ->
  Ascii.compare a c = Lt.
Proof.
  unfold Ascii.compare. rewrite !N.compare_lt_iff. apply N.lt_trans.
Qed.

Lemma ascii_compare_refl (a : ascii) : Ascii.compare a a = Eq.
Proof. unfold Ascii.compare. apply N.compare_refl. Qed.

Lemma str_compare_refl (s : string) : String.compare s s = Eq.
Proof.
  induction s as [|c s IH]; simpl; [reflexivity|].
  now rewrite ascii_compare_refl.
Qed.

Lemma str_compare_lt_trans (s1 s2 s3 : string) :
  String.compare s1 s2 = Lt -> String.compare s2 s3 = Lt ->
  String.compare s1 s3 = Lt.
Proof.
  revert s2 s3.
  induction s1 as [|a s1 IH]; intros [|b s2] [|c s3]; simpl;
    try discriminate; try reflexivity.
  destruct (Ascii.compare a b) eqn:Hab; try discriminate;
    destruct (Ascii.compare b c) eqn:Hbc; try discriminate; intros H12 H23.
  - apply Ascii.compare_eq_iff in Hab, Hbc. subst.
    rewrite ascii_compare_refl. exact (IH _ _ H12 H23).
  - apply Ascii.compare_eq_iff in Hab. subst. now rewrite Hbc.
  - apply Ascii.compare_eq_iff in Hbc. subst. now rewrite Hab.
  - now rewrite (ascii_compare_lt_trans _ _ _ Hab Hbc).
Qed.

Lemma str_ltb_lt (s1 s2 : string) :
  String.ltb s1 s2 = true <-> String.compare s1 s2 = Lt.
Proof.
  unfold String.ltb. destruct (String.compare s1 s2); split;
    congruence.
Qed.

(** The order on keys is a strict total order. *)
Lemma key_ltb_irrefl (k : bool * string) : key_ltb k k = false.
Proof.
  destruct k as [[|] s]; unfold key_ltb; cbn [fst snd];
    unfold String.ltb; now rewrite str_compare_refl.
Qed.

Lemma key_ltb_trans (k1 k2 k3 : bool * string) :
  key_ltb k1 k2 = true -> key_ltb k2 k3 = true -> key_ltb k1 k3 = true.
Proof.
  destruct k1 as [[|] s1], k2 as [[|] s2], k3 as [[|] s3];
    unfold key_ltb; cbn [fst snd]; try discriminate; try reflexivity;
    rewrite !str_ltb_lt; apply str_compare_lt_trans.
Qed.

Lemma key_ltb_asym (k1 k2 : bool * string) :
  key_ltb k1 k2 = true -> key_ltb k2 k1 = false.
Proof.
  intros H12. destruct (key_ltb k2 k1) eqn:H21; [|reflexivity].
  rewrite <- (key_ltb_irrefl k1). symmetry.
  exact (key_ltb_trans _ _ _ H12 H21).
Qed.

Lemma key_ltb_total (k1 k2 : bool * string) :
  k1 <> k2 -> key_ltb k1 k2 = true \/ key_ltb k2 k1 = true.
Proof.
  destruct k1 as [[|] s1], k2 as [[|] s2]; unfold key_ltb; cbn [fst snd];
    intros Hne; auto;
    unfold String.ltb; rewrite (String.compare_antisym s2 s1);
    destruct (String.compare s1 s2) eqn:Hc; cbn; auto;
    apply String.compare_eq_iff in Hc; subst; contradiction.
Qed.

Lemma key_ltb_neither (k1 k2 : bool * string) :
  key_ltb k1 k2 = false -> key_ltb k2 k1 = false -> k1 = k2.
Proof.
  destruct k1 as [[|] s1], k2 as [[|] s2]; unfold key_ltb; cbn [fst snd];
    try discriminate;
    unfold String.ltb; rewrite (String.compare_antisym s2 s1);
    destruct (String.compare s1 s2) eqn:Hc; cbn; try discriminate;
    apply String.compare_eq_iff in Hc; subst; reflexivity.
Qed.

End KeyOrder.

Section SortingProperties.
Variable T : Type.
Variable key : T -> bool * string.

Lemma insert_by_key_perm (x : T) (l : list T) :
  Permutation (insert_by_key key x l) (x :: l).
Proof.
  induction l as [|y l IH]; cbn [insert_by_key]; [reflexivity|].
  destruct (key_ltb (key y) (key x)); [|reflexivity].
  rewrite IH. apply perm_swap.
Qed.

(** Sorting keeps the items. *)
Lemma sorted_by_key_perm (l : list T) : Permutation (sorted_by_key key l) l.
Proof.
  induction l as [|x l IH]; cbn; [reflexivity|].
  rewrite insert_by_key_perm. now rewrite IH.
Qed.

Lemma insert_by_key_ascending (x : T) (l : list T) :
  ascending key l -> ascending key (insert_by_key key x l).
Proof.
  unfold ascending. induction l as [|y l IH]; intros Hs; cbn [insert_by_key].
  - repeat constructor.
  - inversion Hs as [|? ? Hl Hy]; subst.
    destruct (key_ltb (key y) (key x)) eqn:Hyx.
    + constructor; [exact (IH Hl)|].
      rewrite Forall_forall in *. intros z Hz.
      apply (Permutation_in _ (insert_by_key_perm x l)) in Hz.
      destruct Hz as [<-|Hz]; [exact (key_ltb_asym _ _ Hyx)|exact (Hy z Hz)].
    + constructor; [exact Hs|]. constructor; [exact Hyx|].
      rewrite Forall_forall in *. intros z Hz. specialize (Hy z Hz).
      destruct (key_ltb (key z) (key x)) eqn:Hzx; [|reflexivity].
      destruct (key_ltb (key x) (key y)) eqn:Hxy.
      * rewrite (key_ltb_trans _ _ _ Hzx Hxy) in Hy. discriminate Hy.
      * rewrite (key_ltb_neither _ _ Hxy Hyx) in Hzx. congruence.
Qed.

Lemma sorted_by_key_ascending (l : list T) : ascending key (sorted_by_key key l).
Proof.
  induction l as [|x l IH]; cbn; [constructor|].
  now apply insert_by_key_ascending.
Qed.

(** Two ascending lists with the same items, all of different keys, are
    the same list. *)
Lemma ascending_unique (l1 l2 : list T) :
  ascending key l1 -> ascending key l2 -> Permutation l1 l2 ->
  NoDup (map key l1) -> l1 = l2.
Proof.
  unfold ascending. revert l2.
  induction l1 as [|a l1 IH]; intros l2 H1 H2 Hperm Hnd.
  - apply Permutation_nil in Hperm. now subst.
  - destruct l2 as [|b l2];
      [apply Permutation_sym, Permutation_nil in Hperm; discriminate|].
    inversion H1 as [|? ? Hs1 Ha]; subst.
    inversion H2 as [|? ? Hs2 Hb]; subst.
    rewrite Forall_forall in Ha, Hb.
    assert (Hab : a = b).
    { assert (Hin_a : In a (b :: l2))
        by (apply (Permutation_in _ Hperm); now left).
      assert (Hin_b : In b (a :: l1))
        by (apply (Permutation_in _ (Permutation_sym Hperm)); now left).
      destruct Hin_a as [->|Hin_a]; [reflexivity|].
      destruct Hin_b as [->|Hin_b]; [reflexivity|].
      exfalso.
      assert (Hkey : key a <> key b).
      { inversion Hnd as [|? ? Hnotin _]; subst. intros Heq.
        apply Hnotin. rewrite Heq. now apply in_map. }
      destruct (key_ltb_total Hkey) as [Hlt|Hlt].
      - rewrite (Hb a Hin_a) in Hlt. discriminate Hlt.
      - rewrite (Ha b Hin_b) in Hlt. discriminate Hlt. }
    subst b. f_equal. apply IH; trivial.
    + exact (Permutation_cons_inv Hperm).
    + now inversion Hnd.
Qed.

End SortingProperties.

Section TreeTheorems.
Variable lower : string -> string.

(** Induction on what is on disk. *)
Lemma entry_induction (P : entry -> Prop) :
  (forall name, P (File name)) ->
  (forall name children, Forall P children -> P (Dir name children)) ->
  (forall name, P (Other name)) ->
  forall e, P e.
Proof.
  intros HF HD HO.
  fix IH 1. intros [name|name children|name]; [apply HF| |apply HO].
  apply HD. induction children as [|c children IHc]; constructor.
  - apply IH.
  - exact IHc.
Qed.

Lemma Permutation_filter (T : Type) (f : T -> bool) (l l' : list T) :
  Permutation l l' -> Permutation (filter f l) (filter f l').
Proof.
  induction 1 as [|x l l' _ IH|x y l|l l' l'' _ IH1 _ IH2]; cbn.
  - constructor.
  - destruct (f x); [now constructor|exact IH].
  - destruct (f x), (f y); try reflexivity. apply perm_swap.
  - now rewrite IH1.
Qed.

(** The entries of a directory as [_walk] goes through them. *)
Definition walk_items (children : list entry)
  : list (entry * (string -> list string)) :=
  sorted_by_key (fun p => entry_key lower (fst p))
    (filter (fun p => visible (fst p))
       (map (fun e => (e, _walk lower e)) children)).

Lemma walk_Dir (name : string) (children : list entry) (prefix : string) :
  _walk lower (Dir name children) prefix =
  walk_entries prefix (walk_items children).
Proof. reflexivity. Qed.

Lemma list_sum_cons (n : nat) (l : list nat) :
  list_sum (n :: l) = (n + list_sum l)%nat.
Proof. reflexivity. Qed.

Lemma walk_entries_length (below : entry -> nat) (prefix : string)
    (items : list (entry * (string -> list string))) :
  (forall it, In it items -> forall p,
     List.length (snd it p) = below (fst it)) ->
  List.length (walk_entries prefix items) =
  list_sum (map (fun it => S (if is_dir (fst it)
                              then below (fst it) else 0%nat)) items).
Proof.
  induction items as [|[e walk_e] items IH]; intros Hall;
    cbn [walk_entries map]; [reflexivity|].
  rewrite list_sum_cons, List.length_app. cbn [List.length fst].
  rewrite IH by (intros it Hit; apply Hall; now right).
  destruct (is_dir e).
  - rewrite (Hall (e, walk_e) (or_introl eq_refl)). reflexivity.
  - reflexivity.
Qed.

Lemma visible_count_eq (e : entry) :
  visible_count e = if visible e then S (listed_below e) else 0%nat.
Proof. destruct e; reflexivity. Qed.

Lemma visible_items_sum (children : list entry) :
  list_sum (map (fun it : entry * (string -> list string) =>
                   S (if is_dir (fst it)
                      then listed_below (fst it) else 0%nat))
              (filter (fun p => visible (fst p))
                 (map (fun e => (e, _walk lower e)) children))) =
  list_sum (map visible_count children).
Proof.
  set (g := fun it : entry * (string -> list string) =>
              S (if is_dir (fst it) then listed_below (fst it) else 0%nat)).
  set (V := fun p : entry * (string -> list string) => visible (fst p)).
  set (f := fun e : entry => (e, _walk lower e)).
  induction children as [|c children IH]; [reflexivity|].
  cbn [map filter]. change (V (f c)) with (visible c).
  rewrite list_sum_cons, visible_count_eq.
  destruct (visible c); cbn [map].
  - rewrite list_sum_cons, IH. f_equal. unfold g, f. cbn [fst]. f_equal.
    destruct c; reflexivity.
  - exact IH.
Qed.

(** The number of lines [_walk] gives for an entry. *)
Lemma walk_length (e : entry) :
  forall prefix, List.length (_walk lower e prefix) = listed_below e.
Proof.
  induction e as [name|name children IH|name] using entry_induction;
    intros prefix; [reflexivity| |reflexivity].
  rewrite walk_Dir, (walk_entries_length listed_below).
  - unfold walk_items.
    rewrite (Permutation_list_sum
               (Permutation_map _ (sorted_by_key_perm _ _))).
    apply visible_items_sum.
  - intros it Hit p. unfold walk_items in Hit.
    apply (Permutation_in _ (sorted_by_key_perm _ _)) in Hit.
    apply filter_In in Hit. destruct Hit as [Hit _].
    apply in_map_iff in Hit. destruct Hit as [c [<- Hc]].
    rewrite Forall_forall in IH. exact (IH c Hc p).
Qed.

(** X20.  The tree has one line for the root and one for each entry that
    is not ignored and does not sit under an ignored entry: what is below
    a [__pycache__] directory is not listed. *)
Theorem tree_lines_count (root_name : string) (children : list entry) :
  List.length (tree_lines lower root_name children) =
  S (list_sum (map visible_count children)).
Proof.
  unfold tree_lines. cbn [List.length]. f_equal.
  apply (walk_length (Dir root_name children)).
Qed.

(** X21.  The tree does not depend on the order in which the system
    enumerates the root directory, as long as no two listed entries of it
    have the same sort key (kind and lower-cased name). *)
Theorem tree_lines_order_independent (root_name : string)
    (children children' : list entry) :
  Permutation children children' ->
  NoDup (map (entry_key lower) (filter visible children)) ->
  tree_lines lower root_name children = tree_lines lower root_name children'.
Proof.
  intros Hperm Hkeys. unfold tree_lines. f_equal. rewrite !walk_Dir.
  f_equal. unfold walk_items.
  set (f := fun e : entry => (e, _walk lower e)).
  set (V := fun p : entry * (string -> list string) => visible (fst p)).
  set (K := fun p : entry * (string -> list string) =>
              entry_key lower (fst p)).
  assert (Hitems : Permutation (filter V (map f children))
                     (filter V (map f children'))).
  { apply Permutation_filter, Permutation_map, Hperm. }
  apply (ascending_unique (key := K)).
  - apply sorted_by_key_ascending.
  - apply sorted_by_key_ascending.
  - rewrite !sorted_by_key_perm. exact Hitems.
  - apply (Permutation_NoDup
             (Permutation_sym
                (Permutation_map K (sorted_by_key_perm K _)))).
    replace (map K (filter V (map f children)))
      with (map (entry_key lower) (filter visible children));
      [exact Hkeys|].
    clear. induction children as [|c children IH]; [reflexivity|].
    cbn [map filter]. unfold V at 1, f at 1. cbn [fst].
    destruct (visible c); cbn [map]; [|exact IH].
    rewrite IH. reflexivity.
Qed.

Lemma same_item_key it1 it2 :
  same_item it1 it2 ->
  entry_key lower (fst it1) = entry_key lower (fst it2).
Proof.
  intros [Hn [Hf _]]. unfold entry_key. now rewrite Hn, Hf.
Qed.

Lemma insert_same_items x y l1 l2 :
  same_item x y -> Forall2 same_item l1 l2 ->
  Forall2 same_item
    (insert_by_key (fun p => entry_key lower (fst p)) x l1)
    (insert_by_key (fun p => entry_key lower (fst p)) y l2).
Proof.
  intros Hxy Hl. induction Hl as [|a b l1 l2 Hab Hl IH];
    cbn [insert_by_key]; [constructor; [exact Hxy|constructor]|].
  rewrite (same_item_key Hxy), (same_item_key Hab).
  destruct (key_ltb _ _); constructor; trivial. now constructor.
Qed.

Lemma sorted_same_items l1 l2 :
  Forall2 same_item l1 l2 ->
  Forall2 same_item
    (sorted_by_key (fun p => entry_key lower (fst p)) l1)
    (sorted_by_key (fun p => entry_key lower (fst p)) l2).
Proof.
  induction 1 as [|a b l1 l2 Hab Hl IH]; cbn; [constructor|].
  now apply insert_same_items.
Qed.

Lemma walk_entries_same_items prefix l1 l2 :
  Forall2 same_item l1 l2 ->
  walk_entries prefix l1 = walk_entries prefix l2.
Proof.
  induction 1 as [|[e1 w1] [e2 w2] l1 l2 [Hn [_ [Hd Hw]]] Hl IH];
    [reflexivity|].
  cbn [walk_entries]. cbn [fst snd] in Hn, Hd, Hw.
  rewrite IH, Hn, Hd.
  assert (Hlast : match l1 with [] => true | _ => false end =
                  match l2 with [] => true | _ => false end)
    by (destruct Hl; reflexivity).
  rewrite Hlast. destruct (is_dir e2); [|reflexivity].
  rewrite Hw. reflexivity.
Qed.

Lemma prune_keeps (e : entry) :
  entry_name (prune e) = entry_name e /\
  is_file (prune e) = is_file e /\ is_dir (prune e) = is_dir e.
Proof. destruct e; repeat split; reflexivity. Qed.

(** [_walk] does not see the ignored entries. *)
Lemma walk_prune (e : entry) :
  forall prefix, _walk lower e prefix = _walk lower (prune e) prefix.
Proof.
  induction e as [name|name children IH|name] using entry_induction;
    intros prefix; [reflexivity| |reflexivity].
  cbn [prune]. rewrite !walk_Dir.
  apply walk_entries_same_items. unfold walk_items.
  apply sorted_same_items.
  induction children as [|c children IHc]; [constructor|].
  inversion IH as [|? ? Hc Hcs]; subst.
  destruct (prune_keeps c) as [Hn [Hf Hd]].
  assert (Hv : visible (prune c) = visible c)
    by (unfold visible; now rewrite Hn).
  cbn [map filter fst]. rewrite Hv.
  destruct (visible c) eqn:Hvc.
  - cbn [map filter fst]. rewrite Hv. constructor.
    + repeat split; cbn [fst snd]; auto.
    + exact (IHc Hcs).
  - exact (IHc Hcs).
Qed.

(** X22.  The tree is the tree of the disk without the entries named in
    [IGNORE_DIRS] and without all that is under them, at any depth. *)
Theorem tree_lines_ignore (root_name : string) (children : list entry) :
  tree_lines lower root_name children =
  tree_lines lower root_name (filter visible (map prune children)).
Proof.
  unfold tree_lines. f_equal.
  exact (walk_prune (Dir root_name children) EmptyString).
Qed.

End TreeTheorems.

(* ===================================================================== *)
(** ** The further properties at work on the test doubles                 *)
(* ===================================================================== *)

Lemma rate_limit_retry_within_budget_example :
  exists res s' n,
    rate_limit_retry 3 1 (fun a : unit => spy (fun s => flaky_op s)) tt 6
      fresh =
      Some (res, {| _REGISTRY := []; vendor := s';
                    trace := [] ++ attempts_trace EvCall 1 n |}) /\
    (1 <= n <= budget 3)%nat /\
    calls ([] ++ attempts_trace EvCall 1 n) = (calls [] + n)%nat.
Proof.
  apply (@rate_limit_retry_within_budget nat string string unit
           (fun _ s => flaky_op s) tt fresh 3 1 6);
    [lia|vm_compute; lia].
Defined.



Lemma rate_limit_retry_single_attempt_example :
  rate_limit_retry 0 (-5) (fun a : unit => spy (fun s => flaky_op s)) tt 2
    fresh =
    Some (Raise (Exc ProviderRateLimitError "429"),
          {| _REGISTRY := []; vendor := 1%nat; trace := [EvCall] |}).
Proof.
  apply (@rate_limit_retry_single_attempt nat string string unit
           (fun _ s => flaky_op s) tt fresh 0 (-5) 2); lia.
Defined.

Lemma rate_limit_retry_negative_wait_example :
  rate_limit_retry 3 (-1) (fun a : unit => spy (fun s => flaky_op s)) tt 6
    fresh =
    Some (Raise (Exc ValueError "sleep length must be non-negative"),
          {| _REGISTRY := []; vendor := 1%nat; trace := [EvCall] |}).
Proof.
  apply (@rate_limit_retry_negative_wait nat string string unit
           (fun _ s => flaky_op s) tt fresh
           (Exc ProviderRateLimitError "429") 1%nat 3 (-1) 6);
    [lia|lia|lia|reflexivity|reflexivity].
Defined.



Lemma register_then_resolve_example :
  fst (register_provider FakeOpenAI fresh) = Return FakeOpenAI /\
  fst (resolve_client plain_repr ("openai" ++ ":" ++ "gpt-4o")
         (snd (register_provider FakeOpenAI fresh))) =
    Return {| cls_of := FakeOpenAI; model := "gpt-4o"; client := "gpt-4o" |}.
Proof.
  apply (@register_then_resolve nat string plain_repr FakeOpenAI "openai"
           "gpt-4o" "gpt-4o" 0%nat fresh);
    [reflexivity|discriminate|reflexivity|reflexivity|reflexivity].
Defined.

Lemma resolve_client_never_looks_up_colon_key_example :
  fst (register_provider ColonKey fresh) = Return ColonKey /\
  exists added,
    trace (snd (resolve_client plain_repr "open:ai:gpt"
                  (snd (register_provider ColonKey fresh))))
      = (trace (snd (register_provider ColonKey fresh)) ++ added)%list /\
    ~ In (EvRegistryGetItem "open:ai") added.
Proof.
  destruct (@resolve_client_never_looks_up_colon_key nat string plain_repr
              "open:ai" ColonKey "open:ai:gpt" fresh eq_refl)
    as [Hreg _].
  split; [exact (proj1 (Hreg eq_refl eq_refl))|].
  exact (proj2 (@resolve_client_never_looks_up_colon_key nat string
                  plain_repr "open:ai" ColonKey "open:ai:gpt"
                  (snd (register_provider ColonKey fresh)) eq_refl)).
Defined.

Lemma register_all_first_wins_example :
  dict_get (_REGISTRY (register_all [FakeOpenAI; FakeOther; Echo] fresh))
    "openai" = Some FakeOpenAI.
Proof.
  apply (@register_all_first_wins nat string [FakeOpenAI; FakeOther; Echo]
           fresh "openai").
  discriminate.
Defined.

Lemma resolve_client_twice_example :
  fst (resolve_client plain_repr ("openai" ++ ":" ++ "m") with_openai) =
    Return {| cls_of := FakeOpenAI; model := "m"; client := "m" |} /\
  resolve_client plain_repr ("openai" ++ ":" ++ "m")
    (snd (resolve_client plain_repr ("openai" ++ ":" ++ "m") with_openai)) =
    (Return {| cls_of := FakeOpenAI; model := "m"; client := "m" |},
     {| _REGISTRY := _REGISTRY with_openai; vendor := 0%nat;
        trace := [] ++
                 [EvRegistryGetItem "openai"; EvInstantiate "FakeOpenAI" "m";
                  EvRegistryGetItem "openai";
                  EvInstantiate "FakeOpenAI" "m"] |}).
Proof.
  apply (@resolve_client_twice nat string plain_repr "openai" "m"
           FakeOpenAI "m" 0%nat "m" 0%nat with_openai);
    reflexivity.
Defined.

Lemma call_with_retry_first_outcome_final_example :
  call_with_retry {| cls_of := FakeOther; model := "m"; client := "m" |}
    hello defaults 2 fresh =
    Some (Raise (Exc ProviderAuthError "401"),
          {| _REGISTRY := []; vendor := 1%nat;
             trace := [EvGenerate "m" hello defaults] |}).
Proof.
  apply (@call_with_retry_first_outcome_final nat string
           {| cls_of := FakeOther; model := "m"; client := "m" |}
           hello defaults fresh (Raise (Exc ProviderAuthError "401"))
           1%nat 2).
  - lia.
  - reflexivity.
  - intros e He. injection He as <-. split; reflexivity.
Defined.

Lemma resolve_then_call_with_retry_example :
  exists self w1,
    resolve_client plain_repr ("echo" ++ ":" ++ "m") with_echo
      = (Return self, w1) /\
    call_with_retry self hello defaults 2 w1 =
      Some (Return "pong",
            {| _REGISTRY := _REGISTRY with_echo; vendor := 1%nat;
               trace := [] ++
                        [EvRegistryGetItem "echo"; EvInstantiate "Echo" "m";
                         EvGenerate "m" hello defaults] |}).
Proof.
  apply (@resolve_then_call_with_retry nat string plain_repr "echo" "m"
           Echo "m" 0%nat hello defaults "pong" 1%nat with_echo 2);
    [lia|reflexivity|reflexivity|reflexivity|reflexivity].
Defined.

Lemma except_ProviderError_catches_example :
  try_except (raise (Exc QuotaExceeded "quota")) ProviderError
    (fun e => ret (exc_msg e)) tt = (Return "quota", tt) /\
  try_except (raise (Exc QuotaExceeded "quota")) RuntimeError
    (fun e => ret (exc_msg e)) tt = (Return "quota", tt).
Proof.
  apply (@except_ProviderError_catches unit string
           (raise (Exc QuotaExceeded "quota")) (fun e => ret (exc_msg e))
           tt tt (Exc QuotaExceeded "quota"));
    [reflexivity|left; reflexivity].
Defined.

Lemma GenerateParameters_revalidates_example :
  GenerateParameters_init no_kwargs = Return defaults /\
  GenerateParameters_init (kwargs_of defaults) = Return defaults.
Proof.
  split; [reflexivity|].
  apply (GenerateParameters_revalidates no_kwargs). reflexivity.
Defined.


Lemma tree_lines_order_independent_example :
  tree_lines ascii_lower "proj"
    [File "b.py"; Dir "src" [File "m.py"]; File "A.md"] =
  tree_lines ascii_lower "proj"
    [Dir "src" [File "m.py"]; File "b.py"; File "A.md"].
Proof.
  apply tree_lines_order_independent.
  - apply perm_swap.
  - vm_compute. repeat constructor; simpl; intuition discriminate.
Defined.
